(** * SurgicalLog: the record store of [app.py], embedded and verified

    [app.py] keeps the case log in a pandas DataFrame that is read from and
    written to [surgical_log.csv].  This development embeds the store's
    operations ([load_data], [save_data], the numbering and the append of the
    "Log Case" handler, the two text filters of the "View Full Log" tab, the
    [value_counts] of the dashboard and [to_excel]) together with the parts
    of pandas they call, and proves what they do.

    Text is a list of characters; a DataFrame is its column labels and its
    rows of dynamically typed cells. *)

From Stdlib Require Import ZArith Ascii String List Lia Bool Sorted.
From stdpp Require Import base tactics option list numbers gmap.
Import ListNotations.
Local Open Scope Z_scope.

(** ** Text *)

Abbreviation text := (list ascii).

Definition txt (s : string) : text := list_ascii_of_string s.

#[global] Instance ascii_eq_dec : EqDecision ascii := Ascii.ascii_dec.

(** ** Cells and frames *)

(** A cell of a DataFrame.  [CFloat lit] is the float64 that pandas parses
    from the literal [lit]; [CNaN] is the missing value. *)
Inductive cell : Type :=
  | CInt (z : Z)
  | CFloat (lit : text)
  | CBool (b : bool)
  | CStr (s : text)
  | CNaN.

#[global] Instance cell_eq_dec : EqDecision cell.
Proof. solve_decision. Defined.

Record DataFrame : Type := mkFrame {
  columns : list text;
  rows : list (list cell)
}.

#[global] Instance DataFrame_eq_dec : EqDecision DataFrame.
Proof. solve_decision. Defined.

(** [df.empty]: an axis of length 0. *)
Definition empty (df : DataFrame) : bool :=
  match columns df, rows df with
  | [], _ | _, [] => true
  | _, _ => false
  end.

(** The column list of [load_data] (lines 23-27). *)
Definition SCHEMA : list text :=
  map txt ["Number"; "Patient_ID"; "Age"; "Date"; "Hospital"; "Consultant";
           "Diagnosis"; "Procedure"; "Anaesthesia"; "Outcome"; "Notes";
           "My_Role"; "Primary_Surgeon"; "Assistant"]%string.

(** Position of a label among the columns. *)
Fixpoint col_index (name : text) (cols : list text) : option nat :=
  match cols with
  | [] => None
  | c :: cs => if decide (c = name) then Some 0%nat
               else S <$> col_index name cs
  end.

(** [df[name]]: the cells of one column, top to bottom; a row too short for
    the column reads as missing. *)
Definition series (df : DataFrame) (name : text) : option (list cell) :=
  i ← col_index name (columns df);
  Some (map (fun r => default CNaN (r !! i)) (rows df)).

(** ** Numbering (line 100) *)

(** The integers of a column, when every cell is one. *)
Fixpoint ints_of (cs : list cell) : option (list Z) :=
  match cs with
  | [] => Some []
  | CInt z :: cs' => cons z <$> ints_of cs'
  | _ :: _ => None
  end.

(** [Series.max()] of a column of integers. *)
Fixpoint max_list (d : Z) (zs : list Z) : Z :=
  match zs with
  | [] => d
  | z :: zs' => max_list (Z.max d z) zs'
  end.

Definition series_max (zs : list Z) : option Z :=
  match zs with
  | [] => None
  | z :: zs' => Some (max_list z zs')
  end.

(** [(df['Number'].max() + 1) if not df.empty else 1].  The result is an
    integer when the Number column holds integers only; on any other column
    pandas gives a float or raises, which is [None] here. *)
Definition new_case_number (df : DataFrame) : option Z :=
  if empty df then Some 1
  else
    cs ← series df (txt "Number");
    zs ← ints_of cs;
    m ← series_max zs;
    Some (m + 1).

(** ** The "Log Case" handler: building and appending the entry
    (lines 98-120) *)

(** Decimal digits of a natural number, most significant first. *)
Definition digit_char (d : Z) : ascii := ascii_of_nat (Z.to_nat (48 + d)).

Fixpoint digits_fuel (fuel : nat) (n : Z) (acc : text) : text :=
  match fuel with
  | O => acc
  | S f =>
      let acc' := digit_char (n mod 10) :: acc in
      if n <? 10 then acc' else digits_fuel f (n / 10) acc'
  end.

Definition nat_digits (n : Z) : text :=
  digits_fuel (S (Z.to_nat (Z.log2 n))) n [].

(** [str(z)] for an integer. *)
Definition Z_to_text (z : Z) : text :=
  if z <? 0 then "-"%char :: nat_digits (- z) else nat_digits z.

(** Left padding with zeros to a width, as [%Y], [%m] and [%d] do. *)
Definition zero_pad (width : nat) (t : text) : text :=
  repeat "0"%char (width - length t) ++ t.

Record date : Type := mkDate { year : Z; month : Z; day : Z }.

(** [case_date.strftime('%Y-%m-%d')]. *)
Definition strftime_ymd (d : date) : text :=
  zero_pad 4 (nat_digits (year d)) ++ "-"%char ::
  zero_pad 2 (nat_digits (month d)) ++ "-"%char ::
  zero_pad 2 (nat_digits (day d)).

(** The values of the form's widgets at submission. *)
Record Form : Type := mkForm {
  patient_id : text;
  age : Z;
  case_date : date;
  hospital : text;
  consultant : text;
  diagnosis : text;
  procedure : text;
  anaesthesia : text;
  outcome : text;
  my_role : text;
  primary_surgeon : text;
  assistant : text;
  notes : text
}.

(** [new_entry] (lines 101-116), as the labels and the values of the dict in
    insertion order. *)
Definition new_entry (number : cell) (f : Form) : list (text * cell) :=
  [ (txt "Number", number);
    (txt "Patient_ID", CStr (patient_id f));
    (txt "Age", CInt (age f));
    (txt "Date", CStr (strftime_ymd (case_date f)));
    (txt "Hospital", CStr (hospital f));
    (txt "Consultant", CStr (consultant f));
    (txt "Diagnosis", CStr (diagnosis f));
    (txt "Procedure", CStr (procedure f));
    (txt "Anaesthesia", CStr (anaesthesia f));
    (txt "Outcome", CStr (outcome f));
    (txt "Notes", CStr (notes f));
    (txt "My_Role", CStr (my_role f));
    (txt "Primary_Surgeon", CStr (primary_surgeon f));
    (txt "Assistant", CStr (assistant f)) ].

(** [pd.DataFrame([entry])]: one row, the dict's keys as columns. *)
Definition frame_of_entry (entry : list (text * cell)) : DataFrame :=
  mkFrame (map fst entry) [map snd entry].

(** A row of a frame with columns [src] read at the labels [dst]; a label
    the frame does not have reads as missing. *)
Definition reindex (src dst : list text) (row : list cell) : list cell :=
  map (fun c => match col_index c src with
                | Some i => default CNaN (row !! i)
                | None => CNaN
                end) dst.

(** [pd.concat([a, b], ignore_index=True)]: the columns of [a], then those
    of [b] that [a] lacks; the rows of [a], then the rows of [b], each read
    at the joined columns. *)
Definition concat (a b : DataFrame) : DataFrame :=
  let cols := columns a ++
              filter (fun c => col_index c (columns a) = None) (columns b) in
  mkFrame cols (map (reindex (columns a) cols) (rows a) ++
                map (reindex (columns b) cols) (rows b)).

(** The interpreter's objects: frames live in a store and variables hold
    references to them. *)

Definition alloc (h : gmap nat DataFrame) (v : DataFrame)
  : nat * gmap nat DataFrame :=
  let l := fresh (dom h) in (l, <[l := v]> h).

(** [new_df = pd.DataFrame([new_entry]); pd.concat([df, new_df], ...)] on
    the store: both calls build a new object. *)
Definition append (h : gmap nat DataFrame) (df : nat)
    (entry : list (text * cell)) : option (nat * gmap nat DataFrame) :=
  old ← h !! df;
  let '(new_df, h1) := alloc h (frame_of_entry entry) in
  Some (alloc h1 (concat old (frame_of_entry entry))).

(** [df.at[i, name]]. *)
Definition at_ (df : DataFrame) (i : nat) (name : text) : option cell :=
  j ← col_index name (columns df);
  r ← rows df !! i;
  Some (default CNaN (r !! j)).

(** Frames as pandas builds them: every row spans the columns and no label
    occurs twice. *)
Definition wf_frame (df : DataFrame) : Prop :=
  NoDup (columns df) /\
  Forall (fun r => length r = length (columns df)) (rows df).

(** ** Writing the CSV file: [df.to_csv(DATA_FILE, index=False)] *)

Definition COMMA : ascii := ","%char.
Definition QUOTE : ascii := ascii_of_nat 34.
Definition LF : ascii := ascii_of_nat 10.
Definition CR : ascii := ascii_of_nat 13.
Definition SPACE : ascii := " "%char.
Definition TAB : ascii := ascii_of_nat 9.

(** How [to_csv] prints a float read from the literal [lit]: integral
    literals get a fraction, as in [1.0]. *)
Definition float_repr (lit : text) : text :=
  if existsb (fun c => bool_decide (c = "."%char \/ c = "e"%char \/ c = "E"%char
                                    \/ c = "n"%char \/ c = "N"%char)) lit
  then lit else lit ++ txt ".0".

(** The text of a cell; a missing value prints as nothing ([na_rep='']). *)
Definition cell_text (c : cell) : text :=
  match c with
  | CInt z => Z_to_text z
  | CFloat lit => float_repr lit
  | CBool true => txt "True"
  | CBool false => txt "False"
  | CStr s => s
  | CNaN => []
  end.

(** [QUOTE_MINIMAL]: a field is quoted when it holds the delimiter, the
    quote character or a line break. *)
Definition special (c : ascii) : bool :=
  bool_decide (c = COMMA \/ c = QUOTE \/ c = LF \/ c = CR).

Definition needs_quote (f : text) : bool := existsb special f.

(** Inside quotes every quote character is doubled. *)
Fixpoint double_quotes (f : text) : text :=
  match f with
  | [] => []
  | c :: f' => if decide (c = QUOTE) then QUOTE :: QUOTE :: double_quotes f'
               else c :: double_quotes f'
  end.

Definition quoted (f : text) : text := QUOTE :: double_quotes f ++ [QUOTE].

Definition csv_field (f : text) : text :=
  if needs_quote f then quoted f else f.

Fixpoint join_fields (fs : list text) : text :=
  match fs with
  | [] => []
  | [f] => csv_field f
  | f :: fs' => csv_field f ++ COMMA :: join_fields fs'
  end.

(** One line of the file.  A record that is one empty field is written as
    an empty pair of quotes. *)
Definition csv_line (fs : list text) : text :=
  match fs with
  | [[]] => [QUOTE; QUOTE; LF]
  | _ => join_fields fs ++ [LF]
  end.

Definition csv_lines (grid : list (list text)) : text :=
  List.concat (map csv_line grid).

(** The whole file: the header line, then one line per row. *)
Definition to_csv (df : DataFrame) : text :=
  csv_lines (columns df :: map (map cell_text) (rows df)).

(** ** Reading the CSV file: the tokenizer of [pd.read_csv] *)

(** The states of the tokenizer that the default dialect reaches (comma
    delimiter, double quote, doubled quotes, blank lines skipped). *)
Inductive tstate : Type :=
  | START_RECORD
  | START_FIELD
  | IN_FIELD
  | IN_QUOTED_FIELD
  | QUOTE_IN_QUOTED_FIELD
  | EAT_CRNL
  | EAT_CRNL_NOP
  | WHITESPACE_LINE.

Record tokenizer : Type := mkTok {
  state : tstate;
  field : text;            (* the field being read *)
  line : list text;        (* the finished fields of the current line *)
  lines : list (list text) (* the finished lines *)
}.

Definition set_state (s : tstate) (t : tokenizer) : tokenizer :=
  mkTok s (field t) (line t) (lines t).

Definition PUSH_CHAR (c : ascii) (t : tokenizer) : tokenizer :=
  mkTok (state t) (field t ++ [c]) (line t) (lines t).

Definition END_FIELD (t : tokenizer) : tokenizer :=
  mkTok (state t) [] (line t ++ [field t]) (lines t).

Definition END_LINE (t : tokenizer) : tokenizer :=
  mkTok START_RECORD (field t) [] (lines t ++ [line t]).

Definition is_ws (c : ascii) : bool := bool_decide (c = SPACE \/ c = TAB).

Definition start_field (t : tokenizer) (c : ascii) : tokenizer :=
  if decide (c = LF) then END_LINE (END_FIELD t)
  else if decide (c = CR) then set_state EAT_CRNL (END_FIELD t)
  else if decide (c = QUOTE) then set_state IN_QUOTED_FIELD t
  else if decide (c = COMMA) then set_state START_FIELD (END_FIELD t)
  else set_state IN_FIELD (PUSH_CHAR c t).

Definition in_field (t : tokenizer) (c : ascii) : tokenizer :=
  if decide (c = LF) then END_LINE (END_FIELD t)
  else if decide (c = CR) then set_state EAT_CRNL (END_FIELD t)
  else if decide (c = COMMA) then set_state START_FIELD (END_FIELD t)
  else PUSH_CHAR c t.

(** At the start of a line: an empty line is skipped and a line that
    begins with blanks is held back until it shows another character. *)
Definition start_record (t : tokenizer) (c : ascii) : tokenizer :=
  if decide (c = LF) then t
  else if decide (c = CR) then set_state EAT_CRNL_NOP t
  else if is_ws c then set_state WHITESPACE_LINE (PUSH_CHAR c t)
  else start_field t c.

Definition step (t : tokenizer) (c : ascii) : tokenizer :=
  match state t with
  | START_RECORD => start_record t c
  | START_FIELD => start_field t c
  | IN_FIELD => in_field t c
  | IN_QUOTED_FIELD =>
      if decide (c = QUOTE) then set_state QUOTE_IN_QUOTED_FIELD t
      else PUSH_CHAR c t
  | QUOTE_IN_QUOTED_FIELD =>
      if decide (c = QUOTE) then set_state IN_QUOTED_FIELD (PUSH_CHAR c t)
      else if decide (c = COMMA) then set_state START_FIELD (END_FIELD t)
      else if decide (c = LF) then END_LINE (END_FIELD t)
      else if decide (c = CR) then set_state EAT_CRNL (END_FIELD t)
      else set_state IN_FIELD (PUSH_CHAR c t)
  | EAT_CRNL =>
      if decide (c = LF) then END_LINE t
      else start_record (END_LINE t) c
  | EAT_CRNL_NOP =>
      if decide (c = LF \/ c = COMMA) then set_state START_RECORD t
      else start_record (set_state START_RECORD t) c
  | WHITESPACE_LINE =>
      if decide (c = LF) then mkTok START_RECORD [] (line t) (lines t)
      else if decide (c = CR) then mkTok EAT_CRNL_NOP [] (line t) (lines t)
      else if is_ws c then PUSH_CHAR c t
      else in_field (set_state IN_FIELD t) c
  end.

Inductive read_error : Type :=
  | EmptyDataError   (* no columns to parse from file *)
  | ParserError.     (* error tokenizing data *)

(** The end of the input closes the open field and line; it may not fall
    inside a quoted field. *)
Definition handle_eof (t : tokenizer) : read_error + list (list text) :=
  match state t with
  | START_RECORD | WHITESPACE_LINE | EAT_CRNL_NOP => inr (lines t)
  | IN_QUOTED_FIELD => inl ParserError
  | IN_FIELD | START_FIELD | QUOTE_IN_QUOTED_FIELD =>
      inr (lines (END_LINE (END_FIELD t)))
  | EAT_CRNL => inr (lines (END_LINE t))
  end.

Definition tokenize (s : text) : read_error + list (list text) :=
  handle_eof (fold_left step s (mkTok START_RECORD [] [] [])).

(** ** Reading the CSV file: column types *)

(** The texts that [read_csv] reads as a missing value. *)
Definition NA_VALUES : list text :=
  [] ::
  map txt ["#N/A"; "#N/A N/A"; "#NA"; "-1.#IND"; "-1.#QNAN"; "-NaN";
           "-nan"; "1.#IND"; "1.#QNAN"; "<NA>"; "N/A"; "NA"; "NULL"; "NaN";
           "None"; "n/a"; "nan"; "null"]%string.

Definition is_na (f : text) : bool := bool_decide (f ∈ NA_VALUES).

Definition is_space (c : ascii) : bool :=
  let n := nat_of_ascii c in
  bool_decide (n = 32 \/ 9 <= n <= 13)%nat.

Definition is_digit (c : ascii) : bool :=
  let n := nat_of_ascii c in bool_decide (48 <= n <= 57)%nat.

Definition digit_val (c : ascii) : Z := Z.of_nat (nat_of_ascii c) - 48.

Fixpoint skip (p : ascii -> bool) (s : text) : text :=
  match s with
  | c :: s' => if p c then skip p s' else s
  | [] => []
  end.

Fixpoint span (p : ascii -> bool) (s : text) : text :=
  match s with
  | c :: s' => if p c then c :: span p s' else []
  | [] => []
  end.

Definition skip_sign (s : text) : text :=
  match s with
  | c :: s' => if decide (c = "-"%char \/ c = "+"%char) then s' else s
  | [] => []
  end.

Definition is_negative (s : text) : bool :=
  match s with
  | c :: _ => bool_decide (c = "-"%char)
  | [] => false
  end.

Definition digits_val (ds : text) : Z :=
  fold_left (fun acc c => 10 * acc + digit_val c) ds 0.

Definition INT64_MIN : Z := - 2 ^ 63.
Definition INT64_MAX : Z := 2 ^ 63 - 1.

(** An int64 literal: blanks, a sign, at least one digit, blanks. *)
Definition parse_int (f : text) : option Z :=
  let s := skip is_space f in
  let body := skip_sign s in
  let ds := span is_digit body in
  match ds, skip is_space (skip is_digit body) with
  | _ :: _, [] =>
      let v := if is_negative s then - digits_val ds else digits_val ds in
      if (INT64_MIN <=? v) && (v <=? INT64_MAX) then Some v else None
  | _, _ => None
  end.

Definition lower (c : ascii) : ascii :=
  let n := nat_of_ascii c in
  if bool_decide (65 <= n <= 90)%nat then ascii_of_nat (n + 32) else c.

(** An exponent part, when one is there: [e] or [E], a sign, digits. *)
Definition skip_exponent (s : text) : text :=
  match s with
  | c :: s' =>
      if decide (lower c = "e"%char) then
        match span is_digit (skip_sign s') with
        | [] => s
        | _ :: _ => skip is_digit (skip_sign s')
        end
      else s
  | [] => []
  end.

Definition skip_fraction (s : text) : text :=
  match s with
  | c :: s' => if decide (c = "."%char) then skip is_digit s' else s
  | [] => []
  end.

Definition fraction_digits (s : text) : text :=
  match s with
  | c :: s' => if decide (c = "."%char) then span is_digit s' else []
  | [] => []
  end.

(** A float64 literal: blanks, a sign, digits with an optional fraction (at
    least one digit in all), an optional exponent, blanks; or an infinity. *)
Definition is_float_lit (f : text) : bool :=
  let body := skip_sign (skip is_space f) in
  let int_ds := span is_digit body in
  let after_int := skip is_digit body in
  let rest := skip is_space (skip_exponent (skip_fraction after_int)) in
  match int_ds ++ fraction_digits after_int, rest with
  | _ :: _, [] => true
  | _, _ =>
      let word := map lower (skip_sign f) in
      bool_decide (word = txt "inf" \/ word = txt "infinity")
  end.

Definition strip (f : text) : text :=
  rev (skip is_space (rev (skip is_space f))).

Definition parse_bool (f : text) : option bool :=
  if bool_decide (f ∈ map txt ["True"; "TRUE"; "true"]%string) then Some true
  else if bool_decide (f ∈ map txt ["False"; "FALSE"; "false"]%string)
  then Some false else None.

(** The cells of one column, from its texts: int64 when every text is an
    integer, else float64 when every present text is a number, else bool
    when every present text is a truth value, else the texts themselves;
    the texts of [NA_VALUES] are missing values throughout. *)
Definition infer_column (fs : list text) : list cell :=
  match mapM parse_int fs with
  | Some zs => map CInt zs
  | None =>
      let present := filter (fun f => is_na f = false) fs in
      if forallb is_float_lit present then
        map (fun f => if is_na f then CNaN else CFloat (strip f)) fs
      else match mapM parse_bool present with
           | Some _ =>
               map (fun f => match parse_bool f with
                             | Some b => CBool b
                             | None => CNaN
                             end) fs
           | None => map (fun f => if is_na f then CNaN else CStr f) fs
           end
  end.

(** ** Reading the CSV file: the frame *)

(** Labels of the header: an empty label gets a name from its position and
    a repeated label gets its repeat count as a suffix. *)
Definition name_unnamed (i : nat) (f : text) : text :=
  match f with
  | [] => txt "Unnamed: " ++ nat_digits (Z.of_nat i)
  | _ => f
  end.

Fixpoint dedup_names (seen names : list text) : list text :=
  match names with
  | [] => []
  | n :: ns =>
      let k := length (filter (fun m => m = n) seen) in
      (match k with
       | O => n
       | _ => n ++ "."%char :: nat_digits (Z.of_nat k)
       end) :: dedup_names (seen ++ [n]) ns
  end.

Definition mangle (header : list text) : list text :=
  dedup_names [] (imap name_unnamed header).

(** A short line is filled up with empty fields. *)
Definition pad (width : nat) (r : list text) : list text :=
  r ++ repeat [] (width - length r).

Definition column_texts (grid : list (list text)) (j : nat) : list text :=
  map (fun r => default [] (r !! j)) grid.

(** Types are inferred column by column; the rows are read back across the
    typed columns. *)
Definition infer_rows (width : nat) (grid : list (list text))
  : list (list cell) :=
  let cols := map (fun j => infer_column (column_texts grid j))
                  (seq 0 width) in
  map (fun k => map (fun col => default CNaN (col !! k)) cols)
      (seq 0 (length grid)).

(** [pd.read_csv(text)].  The first line is the header.  The first data
    line may be longer than the header: its leading fields are then the row
    labels, which the application never reads.  A later line longer than
    that is an error. *)
Definition read_csv (s : text) : read_error + DataFrame :=
  match tokenize s with
  | inl e => inl e
  | inr [] => inl EmptyDataError
  | inr (header :: data) =>
      let width := (length header `max` length (default [] (head data)))%nat in
      if existsb (fun r => (width <? length r)%nat) data then inl ParserError
      else
        let lead := (width - length header)%nat in
        inr (mkFrame (mangle header)
               (infer_rows (length header)
                  (map (fun r => drop lead (pad width r)) data)))
  end.

(** ** The durable file *)

(** The content of [surgical_log.csv], when the file exists. *)
Abbreviation disk := (option text).

(** [load_data] (lines 17-27). *)
Definition load_data (d : disk) : read_error + DataFrame :=
  match d with
  | Some s => read_csv s
  | None => inr (mkFrame SCHEMA [])
  end.

(** The file operations that [df.to_csv(DATA_FILE, index=False)] performs:
    the file is opened for writing, which empties it, and the text is then
    written to it in order. *)
Inductive file_op : Type :=
  | OpenTrunc
  | WriteChar (c : ascii).

Definition apply_op (d : disk) (op : file_op) : disk :=
  match op with
  | OpenTrunc => Some []
  | WriteChar c => Some (default [] d ++ [c])
  end.

(** [save_data] (lines 29-31), as the operations it issues. *)
Definition save_ops (df : DataFrame) : list file_op :=
  OpenTrunc :: map WriteChar (to_csv df).

(** [save_data] run to its end. *)
Definition save_data (df : DataFrame) (d : disk) : disk :=
  fold_left apply_op (save_ops df) d.

(** [save_data] stopped after [n] operations. *)
Definition save_interrupted (n : nat) (df : DataFrame) (d : disk) : disk :=
  fold_left apply_op (take n (save_ops df)) d.

(** ** The text filters of the log view (lines 138-142) *)

(** The fragment of Python's regular expressions that is modelled: a
    pattern is a sequence of atoms, each a literal character or the dot. *)
Inductive atom : Type :=
  | Lit (c : ascii)
  | AnyChar.

Definition METACHARS : text := txt ".^$*+?{}[]\|()".

(** [re.compile(pat)] on the fragment; [None] for a pattern that uses any
    other syntax of [re]. *)
Definition compile (pat : text) : option (list atom) :=
  mapM (fun c => if decide (c = "."%char) then Some AnyChar
                 else if bool_decide (c ∈ METACHARS) then None
                 else Some (Lit c)) pat.

(** One atom against one character under [re.IGNORECASE]; the dot matches
    all but the line feed. *)
Definition atom_matches (a : atom) (c : ascii) : bool :=
  match a with
  | Lit l => bool_decide (lower l = lower c)
  | AnyChar => bool_decide (c <> LF)
  end.

(** The atoms match at the start of the text. *)
Fixpoint match_here (re : list atom) (s : text) : bool :=
  match re, s with
  | [], _ => true
  | a :: re', c :: s' => atom_matches a c && match_here re' s'
  | _ :: _, [] => false
  end.

(** [regex.search(s) is not None]: a match at some position. *)
Fixpoint search (re : list atom) (s : text) : bool :=
  match_here re s ||
  match s with
  | [] => false
  | _ :: s' => search re s'
  end.

(** An element of [Series.str.contains(pat, case=False, na=False)]: what is
    not a string gives [na]. *)
Definition contains (re : list atom) (c : cell) : bool :=
  match c with
  | CStr s => search re s
  | _ => false
  end.

(** The [.str] accessor exists on columns of dtype object: a column with no
    cell, with a string, or with truth values next to other cells. *)
Definition is_str (c : cell) : bool :=
  match c with CStr _ => true | _ => false end.

Definition is_bool (c : cell) : bool :=
  match c with CBool _ => true | _ => false end.

Definition object_dtype (col : list cell) : bool :=
  match col with
  | [] => true
  | _ => existsb is_str col || (existsb is_bool col && negb (forallb is_bool col))
  end.

Inductive view : Type :=
  | Shown (df : DataFrame)
  | AttributeError      (* .str on a column that is not of dtype object *)
  | KeyError            (* the frame has no such column *)
  | BeyondFragment.     (* the pattern uses regex syntax that is not modelled *)

(** [cur[cur[name].str.contains(pat, case=False, na=False)]].  Selecting
    rows keeps the dtype of a column, so the dtype is that of the column in
    [df], the frame the selection started from. *)
Definition select_contains (df : DataFrame) (name pat : text)
    (cur : DataFrame) : view :=
  match series df name, series cur name with
  | Some col, Some cur_col =>
      if object_dtype col then
        match compile pat with
        | Some re =>
            Shown (mkFrame (columns cur)
                     (map fst (filter (fun rc => contains re rc.2 = true)
                                 (zip (rows cur) cur_col))))
        | None => BeyondFragment
        end
      else AttributeError
  | _, _ => KeyError
  end.

(** The two conditional selections, in the order of the names given; the
    empty text is falsy. *)
Definition filter_by (df : DataFrame) (name1 pat1 name2 pat2 : text) : view :=
  let step1 := match pat1 with
               | [] => Shown df
               | _ => select_contains df name1 pat1 df
               end in
  match step1, pat2 with
  | Shown cur, _ :: _ => select_contains df name2 pat2 cur
  | _, _ => step1
  end.

(** [filtered_df] (lines 138-142). *)
Definition filtered_df (df : DataFrame) (filter_procedure filter_diagnosis : text)
  : view :=
  filter_by df (txt "Procedure") filter_procedure
               (txt "Diagnosis") filter_diagnosis.

(** The filter as the specification words it: a record is kept when every
    non-empty pattern is a substring of the field's value, ignoring case. *)
Fixpoint is_prefix_ci (p s : text) : bool :=
  match p, s with
  | [], _ => true
  | a :: p', c :: s' => bool_decide (lower a = lower c) && is_prefix_ci p' s'
  | _ :: _, [] => false
  end.

Fixpoint is_substring_ci (p s : text) : bool :=
  is_prefix_ci p s ||
  match s with
  | [] => false
  | _ :: s' => is_substring_ci p s'
  end.

Definition field_matches (pat : text) (c : cell) : bool :=
  match pat, c with
  | [], _ => true
  | _ :: _, CStr s => is_substring_ci pat s
  | _ :: _, _ => false
  end.

Definition cell_at (cols : list text) (name : text) (r : list cell) : cell :=
  match col_index name cols with
  | Some i => default CNaN (r !! i)
  | None => CNaN
  end.

Definition spec_filter (df : DataFrame) (p d : text) : DataFrame :=
  mkFrame (columns df)
    (filter (fun r => field_matches p (cell_at (columns df) (txt "Procedure") r)
                      && field_matches d (cell_at (columns df) (txt "Diagnosis") r)
                      = true)
            (rows df)).

(** ** The dashboard's counts (lines 62 and 66) *)

Definition notna (c : cell) : bool :=
  match c with CNaN => false | _ => true end.

(** The hash table of [value_counts]: one entry per value, in the order in
    which the values are first seen. *)
Fixpoint bump (v : cell) (tbl : list (cell * nat)) : list (cell * nat) :=
  match tbl with
  | [] => [(v, 1%nat)]
  | (k, n) :: tbl' => if decide (k = v) then (k, S n) :: tbl'
                      else (k, n) :: bump v tbl'
  end.

Definition count_table (col : list cell) : list (cell * nat) :=
  fold_left (fun tbl v => bump v tbl) col [].

(** [sort_values(ascending=False)] on the counts: an entry goes behind the
    entries that count at least as much. *)
Fixpoint insert_desc (e : cell * nat) (l : list (cell * nat))
  : list (cell * nat) :=
  match l with
  | [] => [e]
  | x :: l' => if (e.2 <=? x.2)%nat then x :: insert_desc e l' else e :: x :: l'
  end.

Definition sort_values (l : list (cell * nat)) : list (cell * nat) :=
  fold_left (fun acc e => insert_desc e acc) l [].

(** [Series.value_counts()]: missing values are dropped. *)
Definition value_counts (col : list cell) : list (cell * nat) :=
  sort_values (count_table (filter (fun c => notna c = true) col)).

(** [df[name].value_counts()]. *)
Definition group_counts (df : DataFrame) (name : text)
  : option (list (cell * nat)) :=
  value_counts <$> series df name.

(** [len(df[df[name] == value])], the metrics of lines 58 and 59. *)
Definition count_where (df : DataFrame) (name : text) (value : cell)
  : option nat :=
  col ← series df name;
  Some (length (filter (fun c => c = value) col)).

(** ** The Excel export: [to_excel] (lines 33-40) *)

(** What a worksheet cell holds once xlsxwriter has written it. *)
Inductive xl_cell : Type :=
  | XlBlank
  | XlNumber (z : Z)
  | XlFloat (lit : text)
  | XlBoolean (b : bool)
  | XlString (s : text)
  | XlFormula (f : text)
  | XlUrl (s : text).

Record worksheet : Type := mkSheet {
  sheet_name : text;
  grid : list (list xl_cell)
}.

Fixpoint starts_with (p s : text) : bool :=
  match p, s with
  | [], _ => true
  | a :: p', c :: s' => bool_decide (a = c) && starts_with p' s'
  | _ :: _, [] => false
  end.

Definition ends_with (p s : text) : bool := starts_with (rev p) (rev s).

Definition URL_SCHEMES : list text :=
  map txt ["ftp://"; "ftps://"; "http://"; "https://"; "mailto:";
           "internal:"; "external:"]%string.

Definition looks_like_url (s : text) : bool :=
  existsb (fun p => starts_with p s) URL_SCHEMES.

Definition XLS_STRMAX : Z := 32767.
Definition MAX_URL_LENGTH : Z := 2079.

(** [Worksheet.write] on a string, with the options the workbook is created
    with ([strings_to_formulas] and [strings_to_urls] are on): the empty
    string writes nothing, a string that begins with [=] is a formula, a
    string with a URL scheme is a link, and a string or link that is too
    long is not written. *)
Definition write_token_as_string (s : text) : xl_cell :=
  match s with
  | [] => XlBlank
  | _ =>
      if starts_with (txt "=") s then XlFormula (drop 1 s)
      else if starts_with (txt "{=") s && ends_with (txt "}") s
      then XlFormula s
      else if looks_like_url s then
        if Z.of_nat (length s) <=? MAX_URL_LENGTH then XlUrl s else XlBlank
      else if Z.of_nat (length s) <=? XLS_STRMAX then XlString s
      else XlBlank
  end.

(** [Worksheet.write] on the value of a frame's cell; a missing value is
    passed as the empty string. *)
Definition xl_write (c : cell) : xl_cell :=
  match c with
  | CInt z => XlNumber z
  | CFloat lit => XlFloat lit
  | CBool b => XlBoolean b
  | CStr s => write_token_as_string s
  | CNaN => XlBlank
  end.

(** [to_excel]: the workbook that the returned bytes hold, which is one
    sheet with the labels in its first row and a row per row of the frame.
    The container format of the bytes is not modelled. *)
Definition to_excel (df : DataFrame) : list worksheet :=
  [ mkSheet (txt "SurgicalLog")
      (map write_token_as_string (columns df) :: map (map xl_write) (rows df)) ].

(** The value [pd.read_excel] reads from a cell: a formula cell gives the
    result stored with it, which xlsxwriter sets to 0. *)
Definition xl_read (x : xl_cell) : cell :=
  match x with
  | XlBlank => CNaN
  | XlNumber z => CInt z
  | XlFloat lit => CFloat lit
  | XlBoolean b => CBool b
  | XlString s => CStr s
  | XlFormula _ => CInt 0
  | XlUrl s => CStr s
  end.

Definition xl_label (x : xl_cell) : text :=
  match xl_read x with
  | CStr s => s
  | CNaN => []
  | c => cell_text c
  end.

Definition is_blank (x : xl_cell) : bool :=
  match x with XlBlank => true | _ => false end.

(** The used range of a sheet ends at the last row that holds a cell. *)
Fixpoint used_rows (g : list (list xl_cell)) : list (list xl_cell) :=
  match g with
  | [] => []
  | r :: g' =>
      match used_rows g' with
      | [] => if forallb is_blank r then [] else [r]
      | rest => r :: rest
      end
  end.

(** Decoding the export: [pd.read_excel] of the bytes, which reads the
    first sheet, its first row as the labels. *)
Definition read_excel (wb : list worksheet) : option DataFrame :=
  match wb with
  | sh :: _ =>
      match used_rows (grid sh) with
      | header :: data =>
          Some (mkFrame (mangle (map xl_label header)) (map (map xl_read) data))
      | [] => Some (mkFrame [] [])
      end
  | [] => None
  end.

(** Text that [Worksheet.write] stores as a plain string. *)
Definition plain_text (s : text) : bool :=
  negb (bool_decide (s = [])) &&
  negb (starts_with (txt "=") s) &&
  negb (starts_with (txt "{=") s && ends_with (txt "}") s) &&
  negb (looks_like_url s) &&
  (Z.of_nat (length s) <=? XLS_STRMAX).

(** The cells of a record: an integer that a double holds exactly, plain
    text, or nothing. *)
Definition plain_cell (c : cell) : bool :=
  match c with
  | CInt z => (- 2 ^ 53 <=? z) && (z <=? 2 ^ 53)
  | CStr s => plain_text s
  | CNaN => true
  | CFloat _ | CBool _ => false
  end.

(** A frame of such records under plain labels, each record with at least
    one value. *)
Definition plain_frame (df : DataFrame) : bool :=
  forallb plain_text (columns df) &&
  forallb (fun r => forallb plain_cell r && existsb notna r) (rows df).

(** The counts as the specification words them: the distinct values in the
    order in which they are first seen, and how often each occurs. *)
Fixpoint first_seen (l : list cell) : list cell :=
  match l with
  | [] => []
  | x :: l' => x :: filter (fun y => y <> x) (first_seen l')
  end.

Definition occurrences (v : cell) (l : list cell) : nat :=
  length (filter (fun c => c = v) l).

(** Descending order of the counts. *)
Definition at_least (x y : cell * nat) : Prop := (y.2 <= x.2)%nat.

(** A pattern without any character that is special in a regular
    expression. *)
Definition literal (pat : text) : Prop := Forall (fun c => c ∉ METACHARS) pat.

(** Two views agree: the same frame, or an exception in both. *)
Definition same_view (v1 v2 : view) : Prop :=
  match v1, v2 with
  | Shown a, Shown b => a = b
  | Shown _, _ | _, Shown _ => False
  | _, _ => True
  end.

(** A column that is there and has the dtype of text columns. *)
Definition text_column (df : DataFrame) (name : text) : Prop :=
  exists col, series df name = Some col /\ object_dtype col = true.

(** What one of the two selections keeps, when it raises nothing: all rows
    for the empty pattern, else the rows whose cell matches. *)
Definition step_keep (df : DataFrame) (name pat : text)
  : option (list cell -> bool) :=
  match pat with
  | [] => Some (fun _ => true)
  | _ =>
      col ← series df name;
      if object_dtype col then
        re ← compile pat;
        Some (fun r => contains re (cell_at (columns df) name r))
      else None
  end.

(** ** Columns that [read_csv] reads back with the type they had *)

Definition column_cells (rws : list (list cell)) (j : nat) : list cell :=
  map (fun r => default CNaN (r !! j)) rws.

Definition int_cell (c : cell) : bool :=
  match c with
  | CInt z => (INT64_MIN <=? z) && (z <=? INT64_MAX)
  | _ => false
  end.

(** Text that is not read as a missing value, or a missing value. *)
Definition text_cell (c : cell) : bool :=
  match c with
  | CStr s => negb (is_na s)
  | CNaN => true
  | _ => false
  end.

(** Text that reads as no number and no truth value. *)
Definition word_cell (c : cell) : bool :=
  match c with
  | CStr s => negb (is_na s) && negb (is_float_lit s) &&
              bool_decide (parse_int s = None) &&
              bool_decide (parse_bool s = None)
  | _ => false
  end.

(** A column of int64 values, or a column of texts and missing values
    that holds a word or nothing at all. *)
Definition keeps_type (col : list cell) : bool :=
  forallb int_cell col ||
  (forallb text_cell col &&
   (existsb word_cell col || forallb (fun c => negb (notna c)) col)).

Definition csv_stable (df : DataFrame) : bool :=
  forallb (fun j => keeps_type (column_cells (rows df) j))
          (seq 0 (length (columns df))).

(** ** Reading a written field *)

(** The tokenizer stands behind the text of a field [f]. *)
Inductive field_read (f : text) (ln : list text) (lns : list (list text))
  : tokenizer -> Prop :=
  | read_nothing : f = [] -> field_read f ln lns (mkTok START_FIELD [] ln lns)
  | read_plain : field_read f ln lns (mkTok IN_FIELD f ln lns)
  | read_quoted : field_read f ln lns (mkTok QUOTE_IN_QUOTED_FIELD f ln lns).

(** ** Sample frames and files *)

Definition numbered_frame (zs : list Z) : DataFrame :=
  mkFrame SCHEMA (map (fun z => CInt z :: repeat CNaN 13) zs).

Definition session_store : gmap nat DataFrame := {[ 0%nat := numbered_frame [1] ]}.

Definition session_entry : list (text * cell) :=
  new_entry (CInt 2)
    (mkForm (txt "2025-002") 51 (mkDate 2025 2 3) (txt "General") (txt "Dr. X")
       (txt "Cholelithiasis") (txt "Cholecystectomy") (txt "General")
       (txt "Uneventful") (txt "Assistant") (txt "Dr. Y") (txt "Dr. X") (txt "none")).

Definition one_case : DataFrame :=
  concat (mkFrame SCHEMA []) (frame_of_entry session_entry).

Definition foreign_file : text :=
  txt "A,B" ++ [LF] ++ txt "x,y" ++ [LF].

Definition bad_number_file : text :=
  to_csv (mkFrame SCHEMA
            [ CStr (txt "abc") :: repeat (CStr (txt "t")) 13;
              CNaN :: repeat (CStr (txt "t")) 13 ]).

Definition outcomes_frame : DataFrame :=
  mkFrame [txt "Outcome"]
    [[CStr (txt "Complicated")]; [CStr (txt "Uneventful")];
     [CStr (txt "Uneventful")]; [CStr (txt "Complicated")];
     [CStr (txt "Uneventful")]].

Definition procedures_frame : DataFrame :=
  mkFrame [txt "Procedure"; txt "Diagnosis"]
    [ [CStr (txt "Appendectomy"); CStr (txt "Appendicitis")];
      [CStr (txt "Cholecystectomy"); CStr (txt "Cholelithiasis")];
      [CNaN; CStr (txt "Appendicitis")] ].

Definition two_cases : DataFrame :=
  mkFrame [txt "Number"; txt "Patient_ID"; txt "Procedure"]
    [ [CInt 1; CStr (txt "007"); CStr (txt "Appendectomy, open")];
      [CInt 2; CStr (txt "2025-002"); CNaN] ].

Definition formula_case : DataFrame :=
  mkFrame [txt "Number"; txt "Notes"]
    [ [CInt 1; CStr (txt "=1+1")]; [CInt 2; CStr (txt "see above")] ].

Definition logged_cases : DataFrame :=
  concat
    (concat (mkFrame SCHEMA [])
       (frame_of_entry
          (new_entry (CInt 1)
             (mkForm (txt "007") 34 (mkDate 2025 1 10) (txt "General")
                (txt "Dr. X") (txt "Appendicitis, acute")
                (txt "Appendectomy (open); drain") (txt "General")
                (txt "Uneventful") (txt "Primary Surgeon") (txt "Dr. X")
                (txt "Dr. Y") (txt "0042")))))
    (frame_of_entry session_entry).

Definition leading_zero_case : DataFrame :=
  concat (mkFrame SCHEMA [])
    (frame_of_entry
       (new_entry (CInt 1)
          (mkForm (txt "007") 34 (mkDate 2025 1 10) (txt "General")
             (txt "Dr. X") (txt "Appendicitis") (txt "Appendectomy")
             (txt "General") (txt "Uneventful") (txt "Primary Surgeon")
             (txt "Dr. X") [] []))).

(** ** The "Log Case" handler as a whole (lines 98-124) *)

(** The handler on the frame of the run and the file: the number, the
    entry, the joined frame, and the save of the joined frame. *)
Definition log_case (df : DataFrame) (f : Form) (d : disk)
  : option (DataFrame * disk) :=
  n ← new_case_number df;
  let new_df := frame_of_entry (new_entry (CInt n) f) in
  let df' := concat df new_df in
  Some (df', save_data df' d).

(** ** The dashboard (lines 53-69) *)

Record metrics : Type := mkMetrics {
  total_cases : nat;
  complicated_cases : nat;
  primary_surgeon_cases : nat;
  procedure_counts : list (cell * nat);
  hospital_counts : list (cell * nat)
}.

(** The dashboard of a frame: [inl tt] is the note that no case is logged
    yet, [None] a missing column. *)
Definition dashboard (df : DataFrame) : option (unit + metrics) :=
  if empty df then Some (inl tt)
  else
    c ← count_where df (txt "Outcome") (CStr (txt "Complicated"));
    p ← count_where df (txt "My_Role") (CStr (txt "Primary Surgeon"));
    pc ← group_counts df (txt "Procedure");
    hc ← group_counts df (txt "Hospital");
    Some (inr (mkMetrics (length (rows df)) c p pc hc)).

(** One run of the script in which the form is submitted: the frame is
    loaded from the file (line 47), the dashboard is drawn, and the handler
    runs on the frame.  [None] when the load, the dashboard or the numbering
    raises. *)
Definition submit (d : disk) (f : Form) : option disk :=
  match load_data d with
  | inr df => _ ← dashboard df; snd <$> log_case df f d
  | inl _ => None
  end.

(** Runs of the script, one per submitted form. *)
Fixpoint submit_all (d : disk) (fs : list Form) : option disk :=
  match fs with
  | [] => Some d
  | f :: fs' => d' ← submit d f; submit_all d' fs'
  end.

(** The options of the form's widgets (lines 80 and 88-90). *)
Definition ANAESTHESIA_OPTIONS : list text :=
  map txt ["General"; "Spinal"; "Epidural"; "Regional"; "Local"; "Sedation"]%string.

Definition OUTCOME_OPTIONS : list text :=
  map txt ["Uneventful"; "Complicated"]%string.

Definition MY_ROLE_OPTIONS : list text :=
  map txt ["Primary Surgeon"; "Assistant"; "Observer"]%string.

(** A date of the calendar with a year of four digits. *)
Definition valid_date (d : date) : bool :=
  (1000 <=? year d) && (year d <=? 9999) &&
  (1 <=? month d) && (month d <=? 12) &&
  (1 <=? day d) && (day d <=? 31).

(** What the widgets can return: an age between 0 and 120, an option of
    each choice, a date. *)
Definition widget_form (f : Form) : bool :=
  (0 <=? age f) && (age f <=? 120) &&
  bool_decide (anaesthesia f ∈ ANAESTHESIA_OPTIONS) &&
  bool_decide (outcome f ∈ OUTCOME_OPTIONS) &&
  bool_decide (my_role f ∈ MY_ROLE_OPTIONS) &&
  valid_date (case_date f).

(** The row that the handler logs for a form under a number, and the rows
    of a log that numbers its forms from 1 on. *)
Definition entry_row (n : Z) (f : Form) : list cell :=
  map snd (new_entry (CInt n) f).

Definition logged_rows (fs : list Form) : list (list cell) :=
  imap (fun i f => entry_row (1 + Z.of_nat i) f) fs.

(** A frame with the columns of the schema and a row across them all. *)
Definition schema_frame (df : DataFrame) : Prop :=
  columns df = SCHEMA /\ Forall (fun r => length r = 14%nat) (rows df).

(** Text that begins with a digit and goes on with a digit or a hyphen, as
    a date does; no text that is read as a missing value or as a truth value
    has this shape. *)
Definition digit_led (s : text) : bool :=
  match s with
  | c1 :: c2 :: _ => is_digit c1 && (is_digit c2 || bool_decide (c2 = "-"%char))
  | _ => false
  end.

(** The kind of cell that a tracked column holds: an int64 or a word. *)
Definition kind_ok (wordy : bool) (c : cell) : bool :=
  if wordy then word_cell c else int_cell c.

(** The file holds a log of the forms [fs]: it loads as a frame of the
    schema with a row per form, numbered from 1 on, whose columns at the
    positions [J] are those of the rows that were logged. *)
Definition holds_log (J : list (nat * bool)) (d : disk) (fs : list Form) : Prop :=
  exists df,
    load_data d = inr df /\ schema_frame df /\
    length (rows df) = length fs /\
    column_cells (rows df) 0 = map CInt (seqZ 1 (Z.of_nat (length fs))) /\
    Forall (fun jw : nat * bool =>
              column_cells (rows df) jw.1 = column_cells (logged_rows fs) jw.1) J.

(** The columns of the widgets with fixed values: Age is an integer;
    Date, Anaesthesia, Outcome and My_Role are words. *)
Definition WIDGET_COLUMNS : list (nat * bool) :=
  [(2, false); (3, true); (8, true); (9, true); (11, true)]%nat.

(** ** Sample forms *)

Definition form_appendix : Form :=
  mkForm (txt "2025-001") 34 (mkDate 2025 1 10) (txt "General") (txt "Dr. X")
    (txt "Appendicitis") (txt "Appendectomy") (txt "General")
    (txt "Uneventful") (txt "Primary Surgeon") (txt "Dr. X") [] [].

Definition form_gallbladder : Form :=
  mkForm (txt "2025-002") 51 (mkDate 2025 2 3) (txt "General") (txt "Dr. X")
    (txt "Cholelithiasis") (txt "Cholecystectomy") (txt "Spinal")
    (txt "Complicated") (txt "Assistant") (txt "Dr. Y") (txt "Dr. X")
    (txt "bile leak, drained").

Definition gapped_log : DataFrame := numbered_frame [1; 3; 4].

Definition gapped_log_1 : DataFrame :=
  mkFrame SCHEMA (rows gapped_log ++ [entry_row 5 form_appendix]).

Definition gapped_log_2 : DataFrame :=
  mkFrame SCHEMA (rows gapped_log_1 ++ [entry_row 6 form_gallbladder]).

Definition blank_file : text := [LF; CR; LF; LF].

(** * Properties *)

(** ** Columns and lookups *)

Lemma col_index_lookup (name : text) (cols : list text) (i : nat) :
  col_index name cols = Some i -> cols !! i = Some name.
Proof.
  revert i; induction cols as [|c cs IH]; intros i; simpl; [done|].
  destruct (decide (c = name)) as [->|Hne].
  - intros [= <-]; done.
  - destruct (col_index name cs) as [j|]; simpl; [|done].
    intros [= <-]; simpl; auto.
Qed.

Lemma col_index_app_l (name : text) (cols extra : list text) (i : nat) :
  col_index name cols = Some i -> col_index name (cols ++ extra) = Some i.
Proof.
  revert i; induction cols as [|c cs IH]; intros i; simpl; [done|].
  destruct (decide (c = name)); [done|].
  destruct (col_index name cs) as [j|]; simpl; [|done].
  intros [= <-]; rewrite (IH j); done.
Qed.

Lemma col_index_None (name : text) (cols : list text) :
  col_index name cols = None <-> name ∉ cols.
Proof.
  induction cols as [|c cs IH]; simpl.
  - split; [intros _; apply not_elem_of_nil | done].
  - rewrite not_elem_of_cons. destruct (decide (c = name)) as [->|Hne].
    + split; [done | intros [? _]; done].
    + destruct (col_index name cs); simpl.
      * split; [done | intros [_ H]; apply IH in H; done].
      * split; [intros _; split; [congruence | apply IH; done] | done].
Qed.

Lemma col_index_nodup (cols : list text) (i : nat) (name : text) :
  NoDup cols -> cols !! i = Some name -> col_index name cols = Some i.
Proof.
  intros Hnd; revert i; induction Hnd as [|c cs Hnotin Hnd IH]; intros i; [done|].
  destruct i as [|i]; simpl.
  - intros [= ->]. rewrite decide_True; done.
  - intros Hi. rewrite decide_False.
    + rewrite (IH i Hi); done.
    + intros ->. apply Hnotin. eapply list_elem_of_lookup_2; eauto.
Qed.

Lemma reindex_id (cols : list text) (r : list cell) :
  NoDup cols -> length r = length cols -> reindex cols cols r = r.
Proof.
  intros Hnd Hlen. apply list_eq; intros i. unfold reindex.
  rewrite list_lookup_fmap.
  destruct (cols !! i) as [c|] eqn:Hc; simpl.
  - rewrite (col_index_nodup _ _ _ Hnd Hc).
    destruct (r !! i) eqn:Hr; simpl; [done|].
    apply lookup_ge_None in Hr. apply lookup_lt_Some in Hc. lia.
  - apply lookup_ge_None in Hc. symmetry; apply lookup_ge_None. lia.
Qed.

Lemma reindex_lookup (src dst : list text) (r : list cell) (name : text) (j : nat) :
  col_index name src = Some j ->
  col_index name dst = Some j ->
  default CNaN (reindex src dst r !! j) = default CNaN (r !! j).
Proof.
  intros Hs Hd. unfold reindex. rewrite list_lookup_fmap.
  rewrite (col_index_lookup _ _ _ Hd); simpl. rewrite Hs; done.
Qed.

(** ** Loading without a file *)

(** C8: when the durable file does not exist, [load_data] returns a frame
    with no rows whose columns are the 14 labels Number, Patient_ID, Age,
    Date, Hospital, Consultant, Diagnosis, Procedure, Anaesthesia, Outcome,
    Notes, My_Role, Primary_Surgeon, Assistant, in this order. *)
Theorem load_data_no_file :
  exists df : DataFrame,
    load_data None = inr df /\
    rows df = [] /\
    length (columns df) = 14%nat /\
    columns df =
      [txt "Number"; txt "Patient_ID"; txt "Age"; txt "Date"; txt "Hospital";
       txt "Consultant"; txt "Diagnosis"; txt "Procedure"; txt "Anaesthesia";
       txt "Outcome"; txt "Notes"; txt "My_Role"; txt "Primary_Surgeon";
       txt "Assistant"].
Proof. eexists; repeat split; reflexivity. Qed.

(** ** Numbering *)

Lemma max_list_spec (zs : list Z) (d : Z) :
  (max_list d zs = d \/ max_list d zs ∈ zs) /\
  d <= max_list d zs /\
  (forall z, z ∈ zs -> z <= max_list d zs).
Proof.
  revert d; induction zs as [|z zs IH]; intros d; simpl.
  - split; [auto|]. split; [lia|]. intros z Hz; inversion Hz.
  - destruct (IH (Z.max d z)) as (Hin & Hge & Hall).
    split; [|split].
    + destruct Hin as [Heq|Hin].
      * rewrite Heq. destruct (Z.max_spec d z) as [[_ ->]|[_ ->]];
          [right; left | left; done].
      * right; right; done.
    + lia.
    + intros y Hy. apply elem_of_cons in Hy as [->|Hy]; [lia | auto].
Qed.

Lemma ints_of_CInt (zs : list Z) : ints_of (map CInt zs) = Some zs.
Proof. induction zs as [|z zs IH]; simpl; [done | rewrite IH; done]. Qed.

Lemma series_length (df : DataFrame) (name : text) (col : list cell) :
  series df name = Some col -> length col = length (rows df).
Proof.
  unfold series. destruct (col_index name (columns df)); simpl; [|done].
  intros [= <-]. apply length_map.
Qed.



(** Numbering an empty frame, whatever its columns. *)
Lemma new_case_number_empty (df : DataFrame) :
  empty df = true -> new_case_number df = Some 1.
Proof. unfold new_case_number; intros ->; done. Qed.

(** ** Appending *)

Lemma alloc_fresh (h : gmap nat DataFrame) (v : DataFrame) :
  h !! (alloc h v).1 = None /\
  (alloc h v).2 !! (alloc h v).1 = Some v /\
  (forall r w, h !! r = Some w -> (alloc h v).2 !! r = Some w).
Proof.
  unfold alloc; simpl.
  assert (Hf : h !! fresh (dom h) = None).
  { apply not_elem_of_dom. apply is_fresh. }
  split; [done|]. split; [apply lookup_insert_eq|].
  intros r w Hr. rewrite lookup_insert_ne; [done|].
  intros <-. congruence.
Qed.

Lemma filter_none {A} (P : A -> Prop) `{!forall x, Decision (P x)} (l : list A) :
  Forall (fun x => ~ P x) l -> filter P l = [].
Proof.
  induction 1 as [|x l Hx _ IH]; [done|].
  rewrite filter_cons_False; done.
Qed.

Lemma concat_rows_same_columns (a b : DataFrame) :
  wf_frame a -> columns b = columns a ->
  Forall (fun r => length r = length (columns b)) (rows b) ->
  concat a b = mkFrame (columns a) (rows a ++ rows b).
Proof.
  intros [Hnd Ha] Hcols Hb. unfold concat. rewrite Hcols in *.
  assert (Hf : filter (fun c => col_index c (columns a) = None) (columns a) = []).
  { apply filter_none, Forall_forall. intros c Hc Hn.
    apply col_index_None in Hn. done. }
  rewrite Hf, app_nil_r. f_equal. f_equal.
  - rewrite <- (map_id (rows a)) at 2. apply map_ext_Forall.
    eapply Forall_impl; [exact Ha|]. intros r Hr. apply reindex_id; done.
  - rewrite <- (map_id (rows b)) at 2. apply map_ext_Forall.
    eapply Forall_impl; [exact Hb|]. intros r Hr. apply reindex_id; done.
Qed.

Lemma concat_at (a b : DataFrame) (i : nat) (name : text) (c : cell) :
  at_ a i name = Some c -> at_ (concat a b) i name = Some c.
Proof.
  unfold at_, concat; simpl.
  destruct (col_index name (columns a)) as [j|] eqn:Hj; simpl; [|done].
  rewrite (col_index_app_l _ _ _ _ Hj); simpl.
  destruct (rows a !! i) as [r|] eqn:Hr; simpl; [|done].
  intros [= <-].
  rewrite lookup_app_l by (rewrite length_map; eapply lookup_lt_Some; eauto).
  rewrite list_lookup_fmap, Hr; simpl. f_equal.
  apply (reindex_lookup _ _ _ name); [done|].
  apply col_index_app_l; done.
Qed.



(** ** Saving *)

Lemma write_chars (t acc : text) :
  fold_left apply_op (map WriteChar t) (Some acc) = Some (acc ++ t).
Proof.
  revert acc; induction t as [|c t IH]; intros acc; simpl.
  - rewrite app_nil_r; done.
  - rewrite IH, <- app_assoc; done.
Qed.

Lemma save_data_overwrites (df : DataFrame) (d : disk) :
  save_data df d = Some (to_csv df).
Proof. unfold save_data, save_ops; simpl. apply write_chars. Qed.

(** C4, as the code has it: [save_data] rewrites the durable file in place.
    Run to its end it leaves exactly the serialized frame; stopped after
    any number of its file operations it leaves the old content only when
    nothing was done yet, and otherwise a prefix of the new text: the old
    content is gone from the first operation on. *)
Theorem save_data_in_place (df : DataFrame) (d : disk) (n : nat) :
  save_data df d = Some (to_csv df) /\
  save_interrupted 0 df d = d /\
  save_interrupted (S n) df d = Some (take n (to_csv df)).
Proof.
  split; [apply save_data_overwrites|]. split; [reflexivity|].
  unfold save_interrupted, save_ops; simpl.
  rewrite <- fmap_take. apply write_chars.
Qed.

(** C4 fails as stated: one operation into a save, the file is empty, which
    is neither the content before the save nor the content after it. *)
Lemma save_data_not_atomic :
  save_interrupted 1 one_case (Some (to_csv (mkFrame SCHEMA [])))
    <> Some (to_csv (mkFrame SCHEMA [])) /\
  save_interrupted 1 one_case (Some (to_csv (mkFrame SCHEMA [])))
    <> save_data one_case (Some (to_csv (mkFrame SCHEMA []))) /\
  save_interrupted 1 one_case (Some (to_csv (mkFrame SCHEMA []))) = Some [].
Proof. vm_compute. repeat split; discriminate. Qed.

(** ** Loading a file that is there *)

Lemma infer_rows_shape (width : nat) (g : list (list text)) :
  length (infer_rows width g) = length g /\
  Forall (fun r => length r = width) (infer_rows width g).
Proof.
  unfold infer_rows. split.
  - rewrite length_map, length_seq; done.
  - apply Forall_forall. intros r Hr.
    apply list_elem_of_fmap in Hr as (k & -> & _).
    rewrite !length_map, length_seq; done.
Qed.




(** ** Counting by value *)

Lemma count_table_snoc (l : list cell) (x : cell) :
  count_table (l ++ [x]) = bump x (count_table l).
Proof. unfold count_table. rewrite fold_left_app. reflexivity. Qed.

Lemma first_seen_elem (l : list cell) (x : cell) : x ∈ first_seen l <-> x ∈ l.
Proof.
  induction l as [|y l IH]; simpl; [done|].
  rewrite !elem_of_cons, list_elem_of_filter, IH.
  destruct (decide (x = y)); tauto.
Qed.

Lemma first_seen_NoDup (l : list cell) : NoDup (first_seen l).
Proof.
  induction l as [|y l IH]; simpl; [constructor|].
  constructor.
  - rewrite list_elem_of_filter. intros [H _]; apply H; done.
  - apply NoDup_filter; done.
Qed.

Lemma first_seen_snoc (l : list cell) (x : cell) :
  first_seen (l ++ [x]) =
  if decide (x ∈ l) then first_seen l else first_seen l ++ [x].
Proof.
  induction l as [|y l IH]; cbn [app first_seen].
  - rewrite decide_False by apply not_elem_of_nil. reflexivity.
  - rewrite IH. destruct (decide (x ∈ l)) as [Hin|Hnin].
    + rewrite decide_True by (right; done). reflexivity.
    + destruct (decide (x = y)) as [->|Hne].
      * rewrite decide_True by (left; done).
        rewrite filter_app, filter_cons_False by (intros H; apply H; done).
        rewrite filter_nil, app_nil_r; done.
      * rewrite decide_False by (rewrite elem_of_cons; tauto).
        rewrite filter_app, filter_cons_True by done. reflexivity.
Qed.

Lemma occurrences_snoc (k x : cell) (l : list cell) :
  occurrences k (l ++ [x]) =
  if decide (x = k) then S (occurrences k l) else occurrences k l.
Proof.
  unfold occurrences. rewrite filter_app, length_app.
  destruct (decide (x = k)) as [->|Hne].
  - rewrite filter_cons_True by done. simpl; lia.
  - rewrite filter_cons_False by done. simpl; lia.
Qed.

Lemma occurrences_zero (k : cell) (l : list cell) :
  k ∉ l -> occurrences k l = 0%nat.
Proof.
  intros Hk. unfold occurrences. rewrite filter_none; [done|].
  apply Forall_forall. intros c Hc ->. done.
Qed.

Lemma occurrences_pos (k : cell) (l : list cell) :
  k ∈ l -> (0 < occurrences k l)%nat.
Proof.
  intros Hk. unfold occurrences.
  destruct (filter (fun c => c = k) l) eqn:E; simpl; [|lia].
  exfalso. eapply (filter_nil_not_elem_of _ _ k); [exact E | reflexivity | exact Hk].
Qed.

Lemma bump_absent (x : cell) (f : cell -> nat) (ks : list cell) :
  x ∉ ks ->
  bump x (map (fun k => (k, f k)) ks) = map (fun k => (k, f k)) ks ++ [(x, 1%nat)].
Proof.
  induction ks as [|k ks IH]; simpl; [done|].
  rewrite not_elem_of_cons. intros [Hne Hnin].
  rewrite decide_False by congruence. rewrite IH; done.
Qed.

Lemma bump_present (x : cell) (f g : cell -> nat) (ks : list cell) :
  NoDup ks -> x ∈ ks ->
  g x = S (f x) -> (forall k, k <> x -> g k = f k) ->
  bump x (map (fun k => (k, f k)) ks) = map (fun k => (k, g k)) ks.
Proof.
  intros Hnd Hin Hx Hother.
  induction Hnd as [|k ks Hnotin Hnd IH]; [inversion Hin|].
  simpl. destruct (decide (k = x)) as [->|Hne].
  - rewrite Hx. f_equal. apply map_ext_in. intros k Hk.
    rewrite Hother; [done|]. intros ->. apply Hnotin, list_elem_of_In; done.
  - rewrite Hother by done. f_equal. apply IH.
    apply elem_of_cons in Hin as [->|]; done.
Qed.

Lemma count_table_first_seen (l : list cell) :
  count_table l = map (fun k => (k, occurrences k l)) (first_seen l).
Proof.
  induction l as [|x l IH] using rev_ind; [reflexivity|].
  rewrite count_table_snoc, IH, first_seen_snoc.
  destruct (decide (x ∈ l)) as [Hin|Hnin].
  - apply bump_present.
    + apply first_seen_NoDup.
    + apply first_seen_elem; done.
    + rewrite occurrences_snoc, decide_True; done.
    + intros k Hk. rewrite occurrences_snoc, decide_False; done.
  - rewrite bump_absent by (rewrite first_seen_elem; done).
    rewrite map_app; simpl. f_equal.
    + apply map_ext_in. intros k Hk.
      rewrite occurrences_snoc, decide_False; [done|].
      intros ->. apply Hnin, first_seen_elem, list_elem_of_In; done.
    + rewrite occurrences_snoc, decide_True by done.
      rewrite occurrences_zero; done.
Qed.

Lemma sort_values_snoc (l : list (cell * nat)) (e : cell * nat) :
  sort_values (l ++ [e]) = insert_desc e (sort_values l).
Proof. unfold sort_values. rewrite fold_left_app. reflexivity. Qed.

Lemma insert_desc_perm (e : cell * nat) (l : list (cell * nat)) :
  insert_desc e l ≡ₚ l ++ [e].
Proof.
  induction l as [|x l IH]; simpl; [done|].
  destruct (e.2 <=? x.2)%nat.
  - rewrite IH; done.
  - rewrite (Permutation_app_comm (x :: l) [e]); done.
Qed.

Lemma insert_desc_sorted (e : cell * nat) (l : list (cell * nat)) :
  StronglySorted at_least l -> StronglySorted at_least (insert_desc e l).
Proof.
  induction 1 as [|x l Hs IH Hall]; simpl.
  - repeat constructor.
  - destruct (e.2 <=? x.2)%nat eqn:E.
    + constructor; [exact IH|].
      apply Nat.leb_le in E.
      rewrite insert_desc_perm. apply Forall_app; split; [done|].
      repeat constructor. exact E.
    + apply Nat.leb_gt in E.
      constructor; [constructor; done|].
      constructor; [unfold at_least; lia|].
      eapply Forall_impl; [exact Hall|]. unfold at_least. intros; simpl in *; lia.
Qed.

Lemma insert_desc_stable (n : nat) (e : cell * nat) (l : list (cell * nat)) :
  StronglySorted at_least l ->
  filter (fun x => x.2 = n) (insert_desc e l) =
  filter (fun x => x.2 = n) (l ++ [e]).
Proof.
  induction 1 as [|x l Hs IH Hall]; simpl; [done|].
  destruct (e.2 <=? x.2)%nat eqn:E.
  - rewrite !filter_cons, IH; done.
  - apply Nat.leb_gt in E.
    destruct (decide (e.2 = n)) as [He|He].
    + assert (Hnone : filter (fun y : cell * nat => y.2 = n) (x :: l) = []).
      { apply filter_none. constructor; [lia|].
        eapply Forall_impl; [exact Hall|]. unfold at_least. intros; simpl in *; lia. }
      rewrite filter_cons_True by done.
      rewrite (filter_app _ (x :: l) [e]), Hnone.
      rewrite filter_cons_True by done. reflexivity.
    + rewrite filter_cons_False by done.
      rewrite (filter_app _ (x :: l) [e]).
      rewrite (filter_cons_False _ e) by done.
      rewrite filter_nil, app_nil_r. reflexivity.
Qed.

Lemma sort_values_spec (l : list (cell * nat)) :
  sort_values l ≡ₚ l /\
  StronglySorted at_least (sort_values l) /\
  (forall n, filter (fun x => x.2 = n) (sort_values l) = filter (fun x => x.2 = n) l).
Proof.
  induction l as [|e l (Hp & Hs & Hst)] using rev_ind.
  - split; [done|]. split; [constructor | done].
  - rewrite sort_values_snoc. split; [|split].
    + rewrite insert_desc_perm, Hp; done.
    + apply insert_desc_sorted; done.
    + intros n. rewrite insert_desc_stable by done.
      rewrite !filter_app, Hst; done.
Qed.

Lemma filter_count_map (f : cell -> nat) (n : nat) (ks : list cell) :
  filter (fun x : cell * nat => x.2 = n) (map (fun k => (k, f k)) ks) =
  map (fun k => (k, n)) (filter (fun k => f k = n) ks).
Proof.
  induction ks as [|k ks IH]; simpl; [done|].
  rewrite !filter_cons; simpl. destruct (decide (f k = n)) as [<-|]; simpl;
    rewrite IH; done.
Qed.

Lemma occurrences_notna (k : cell) (col : list cell) :
  k <> CNaN ->
  occurrences k (filter (fun c => notna c = true) col) = occurrences k col.
Proof.
  intros Hk. unfold occurrences. rewrite list_filter_filter. f_equal.
  apply list_filter_iff. intros c. split; [tauto|].
  intros ->. split; [done|]. destruct k; done.
Qed.

Lemma value_counts_table (col : list cell) :
  count_table (filter (fun c => notna c = true) col) =
  map (fun k => (k, occurrences k col))
      (first_seen (filter (fun c => notna c = true) col)).
Proof.
  rewrite count_table_first_seen. apply map_ext_in. intros k Hk.
  rewrite occurrences_notna; [done|].
  apply list_elem_of_In, first_seen_elem, list_elem_of_filter in Hk as [Hk _].
  intros ->. done.
Qed.



(** The counts of an empty column. *)
Lemma value_counts_nil : value_counts [] = [].
Proof. reflexivity. Qed.

(** ** Filtering *)

Lemma series_cell_at (df : DataFrame) (name : text) (col : list cell) :
  series df name = Some col ->
  col = map (cell_at (columns df) name) (rows df).
Proof.
  unfold series, cell_at.
  destruct (col_index name (columns df)); simpl; [|done].
  intros [= <-]; done.
Qed.

Lemma series_same_columns (df cur : DataFrame) (name : text) (col : list cell) :
  columns cur = columns df -> series df name = Some col ->
  series cur name = Some (map (cell_at (columns df) name) (rows cur)).
Proof.
  unfold series, cell_at. intros ->.
  destruct (col_index name (columns df)); simpl; [|done]. done.
Qed.

Lemma filter_zip_contains (re : list atom) (f : list cell -> cell)
    (l : list (list cell)) :
  map fst (filter (fun rc : list cell * cell => contains re rc.2 = true)
             (zip l (map f l))) =
  filter (fun r => contains re (f r) = true) l.
Proof.
  induction l as [|a l IH]; simpl; [done|].
  rewrite !filter_cons; simpl.
  destruct (decide (contains re (f a) = true)); simpl; rewrite IH; done.
Qed.

(** A selection that succeeds keeps the rows whose cell matches. *)
Lemma select_contains_Shown (df cur : DataFrame) (name pat : text) (out : DataFrame) :
  columns cur = columns df ->
  select_contains df name pat cur = Shown out <->
  exists col re,
    series df name = Some col /\ object_dtype col = true /\
    compile pat = Some re /\
    out = mkFrame (columns df)
            (filter (fun r => contains re (cell_at (columns df) name r) = true)
                    (rows cur)).
Proof.
  intros Hcols. unfold select_contains.
  destruct (series df name) as [col|] eqn:Hs.
  - rewrite (series_same_columns df cur name col Hcols Hs).
    destruct (object_dtype col) eqn:Ho.
    + destruct (compile pat) as [re|] eqn:Hc.
      * cbv beta iota.
        rewrite filter_zip_contains, Hcols.
        split.
        -- intros [= <-]. exists col, re; done.
        -- intros (col' & re' & [= <-] & _ & [= <-] & ->); done.
      * split; [done|]. intros (? & ? & _ & _ & ? & _); done.
    + split; [done|]. intros (? & ? & [= <-] & ? & _); congruence.
  - split; [destruct (series cur name); done|].
    intros (? & ? & ? & _); done.
Qed.

Lemma select_contains_columns (df cur : DataFrame) (name pat : text) (out : DataFrame) :
  columns cur = columns df ->
  select_contains df name pat cur = Shown out -> columns out = columns df.
Proof.
  intros Hcols H. apply select_contains_Shown in H as (? & ? & _ & _ & _ & ->); done.
Qed.

Lemma compile_literal (pat : text) :
  literal pat -> compile pat = Some (map Lit pat).
Proof.
  unfold compile. induction 1 as [|c pat Hc _ IH]; [done|].
  cbn [mapM]. rewrite decide_False.
  - rewrite bool_decide_false by done. rewrite IH. done.
  - intros ->. apply Hc. vm_compute. repeat constructor.
Qed.

Lemma match_here_literal (p s : text) :
  match_here (map Lit p) s = is_prefix_ci p s.
Proof.
  revert s; induction p as [|a p IH]; intros [|c s]; simpl; try done.
  rewrite IH; done.
Qed.

Lemma search_literal (p s : text) :
  search (map Lit p) s = is_substring_ci p s.
Proof.
  induction s as [|c s IH]; simpl.
  - rewrite match_here_literal; done.
  - rewrite IH, (match_here_literal p (c :: s)); done.
Qed.

Lemma contains_literal (p : text) (c : cell) :
  p <> [] -> contains (map Lit p) c = field_matches p c.
Proof.
  intros Hp. destruct p as [|a p]; [done|].
  destruct c; simpl; try done. apply (search_literal (a :: p)).
Qed.

Lemma field_matches_nil (c : cell) : field_matches [] c = true.
Proof. done. Qed.

Lemma select_contains_literal (df cur : DataFrame) (name pat : text) :
  columns cur = columns df -> pat <> [] -> literal pat -> text_column df name ->
  select_contains df name pat cur =
  Shown (mkFrame (columns df)
           (filter (fun r => field_matches pat (cell_at (columns df) name r) = true)
                   (rows cur))).
Proof.
  intros Hcols Hne Hlit (col & Hs & Ho).
  apply select_contains_Shown; [done|].
  exists col, (map Lit pat).
  split; [done|]. split; [done|]. split; [apply compile_literal; done|].
  f_equal. apply list_filter_iff. intros r.
  rewrite contains_literal; done.
Qed.

Lemma frame_eta (df : DataFrame) : mkFrame (columns df) (rows df) = df.
Proof. destruct df; done. Qed.


Lemma filter_all {A} (l : list A) : filter (fun _ => true = true) l = l.
Proof.
  induction l as [|a l IH]; [done|].
  rewrite filter_cons_True by done. rewrite IH; done.
Qed.

Lemma select_contains_keep (df cur : DataFrame) (name pat : text) (out : DataFrame) :
  columns cur = columns df -> pat <> [] ->
  select_contains df name pat cur = Shown out <->
  exists k, step_keep df name pat = Some k /\
            out = mkFrame (columns df) (filter (fun r => k r = true) (rows cur)).
Proof.
  intros Hcols Hne. rewrite select_contains_Shown by done.
  unfold step_keep. destruct pat as [|a pat]; [done|]. cbv beta iota.
  generalize (compile (a :: pat)) as cp. intros cp.
  destruct (series df name) as [col|]; simpl.
  - destruct (object_dtype col) eqn:Ho.
    + destruct cp as [re|]; simpl.
      * split.
        -- intros (col' & re' & [= <-] & _ & [= <-] & ->). eexists; split; reflexivity.
        -- intros (k & [= <-] & ->). exists col, re; done.
      * split; [intros (? & ? & _ & _ & ? & _); done | intros (? & ? & _); done].
    + split; [intros (? & ? & [= <-] & ? & _); congruence | intros (? & ? & _); done].
  - split; [intros (? & ? & ? & _); done | intros (? & ? & _); done].
Qed.

(** The view is a frame exactly when neither selection raises, and the
    frame then holds the rows that both keep. *)
Lemma filter_by_Shown (df : DataFrame) (n1 p n2 d : text) (out : DataFrame) :
  filter_by df n1 p n2 d = Shown out <->
  exists k1 k2,
    step_keep df n1 p = Some k1 /\ step_keep df n2 d = Some k2 /\
    out = mkFrame (columns df)
            (filter (fun r => k2 r = true) (filter (fun r => k1 r = true) (rows df))).
Proof.
  unfold filter_by. destruct p as [|a p].
  - destruct d as [|b d].
    + split.
      * intros [= <-]. exists (fun _ => true), (fun _ => true).
        rewrite !filter_all, frame_eta; done.
      * intros (k1 & k2 & [= <-] & [= <-] & ->).
        rewrite !filter_all, frame_eta; done.
    + rewrite select_contains_keep by done. split.
      * intros (k & Hk & ->). exists (fun _ => true), k. rewrite filter_all; done.
      * intros (k1 & k2 & [= <-] & Hk & ->). exists k2. rewrite filter_all; done.
  - destruct (select_contains df n1 (a :: p) df) as [cur| | |] eqn:E1.
    + pose proof E1 as Hc. apply select_contains_columns in Hc; [|done].
      apply select_contains_keep in E1 as (k1 & Hk1 & ->); [|done|done].
      destruct d as [|b d].
      * split.
        -- intros [= <-]. exists k1, (fun _ => true). rewrite filter_all; done.
        -- intros (k1' & k2 & Hk1' & [= <-] & ->). rewrite filter_all.
           rewrite Hk1 in Hk1'. injection Hk1' as <-. done.
      * rewrite select_contains_keep by done. simpl rows. split.
        -- intros (k2 & Hk2 & ->). exists k1, k2; done.
        -- intros (k1' & k2 & Hk1' & Hk2 & ->). exists k2.
           rewrite Hk1 in Hk1'. injection Hk1' as <-. done.
    + split; [destruct d; done|]. intros (k1 & k2 & Hk1 & _).
      assert (H : select_contains df n1 (a :: p) df =
                  Shown (mkFrame (columns df) (filter (fun r => k1 r = true) (rows df)))).
      { apply select_contains_keep; [done|done|]. exists k1; done. }
      congruence.
    + split; [destruct d; done|]. intros (k1 & k2 & Hk1 & _).
      assert (H : select_contains df n1 (a :: p) df =
                  Shown (mkFrame (columns df) (filter (fun r => k1 r = true) (rows df)))).
      { apply select_contains_keep; [done|done|]. exists k1; done. }
      congruence.
    + split; [destruct d; done|]. intros (k1 & k2 & Hk1 & _).
      assert (H : select_contains df n1 (a :: p) df =
                  Shown (mkFrame (columns df) (filter (fun r => k1 r = true) (rows df)))).
      { apply select_contains_keep; [done|done|]. exists k1; done. }
      congruence.
Qed.

Lemma filter_swap {A} (k1 k2 : A -> bool) (l : list A) :
  filter (fun r => k2 r = true) (filter (fun r => k1 r = true) l) =
  filter (fun r => k1 r = true) (filter (fun r => k2 r = true) l).
Proof. rewrite !list_filter_filter. apply list_filter_iff. intros r; tauto. Qed.




(** ** The Excel export *)

Lemma dedup_names_id (seen names : list text) :
  NoDup names -> (forall n, n ∈ names -> n ∉ seen) ->
  dedup_names seen names = names.
Proof.
  intros Hnd; revert seen; induction Hnd as [|n ns Hn Hnd IH]; intros seen Hs;
    [done|].
  cbn [dedup_names].
  rewrite (filter_none (fun m => m = n) seen); simpl.
  - f_equal. apply IH. intros m Hm.
    rewrite not_elem_of_app, not_elem_of_cons. split; [|split].
    + apply Hs; right; done.
    + intros ->; done.
    + apply not_elem_of_nil.
  - apply Forall_forall. intros m Hm ->. apply (Hs n); [left|]; done.
Qed.

Lemma imap_name_unnamed_id (h : list text) (k : nat) :
  Forall (fun n => n <> []) h -> imap (fun i => name_unnamed (k + i)) h = h.
Proof.
  intros Hh; revert k; induction Hh as [|n h Hn _ IH]; intros k; [done|].
  cbn [imap]. f_equal.
  - destruct n; done.
  - rewrite <- (IH (S k)) at 2. apply imap_ext. intros i x _; simpl.
    f_equal. lia.
Qed.

Lemma mangle_id (h : list text) :
  NoDup h -> Forall (fun n => n <> []) h -> mangle h = h.
Proof.
  intros Hnd Hne. unfold mangle.
  rewrite (imap_ext _ (fun i => name_unnamed (0 + i))) by done.
  rewrite imap_name_unnamed_id by done.
  apply dedup_names_id; [done|]. intros n _. apply not_elem_of_nil.
Qed.

Lemma plain_text_write (s : text) :
  plain_text s = true -> write_token_as_string s = XlString s /\ s <> [].
Proof.
  unfold plain_text, write_token_as_string.
  rewrite !andb_true_iff, !negb_true_iff.
  intros ((((Hne & Hf) & Ha) & Hu) & Hlen).
  apply bool_decide_eq_false in Hne. split; [|done].
  destruct s as [|c s]; [done|].
  rewrite Hf, Ha, Hu, Hlen. done.
Qed.

Lemma plain_cell_round_trip (c : cell) :
  plain_cell c = true -> xl_read (xl_write c) = c.
Proof.
  destruct c; simpl; try done.
  intros H. apply plain_text_write in H as [-> _]. done.
Qed.

Lemma plain_cell_blank (c : cell) :
  plain_cell c = true -> is_blank (xl_write c) = negb (notna c).
Proof.
  destruct c; simpl; try done.
  intros H. apply plain_text_write in H as [-> _]. done.
Qed.

Lemma used_rows_nonblank (g : list (list xl_cell)) :
  Forall (fun r => forallb is_blank r = false) g -> used_rows g = g.
Proof.
  induction 1 as [|r g Hr _ IH]; [done|].
  cbn [used_rows]. rewrite IH, Hr. destruct g; done.
Qed.

Lemma used_rows_header (h : list xl_cell) (g : list (list xl_cell)) :
  Forall (fun r => forallb is_blank r = false) g ->
  used_rows (h :: g) = if forallb is_blank h && bool_decide (g = []) then [] else h :: g.
Proof.
  intros Hg. cbn [used_rows]. rewrite (used_rows_nonblank g Hg).
  destruct g; simpl; [|rewrite andb_false_r; done].
  rewrite andb_true_r. done.
Qed.




(** ** The CSV round trip: lines and fields *)

Lemma special_false (c : ascii) :
  special c = false -> c <> COMMA /\ c <> QUOTE /\ c <> LF /\ c <> CR.
Proof.
  unfold special. intros H. apply bool_decide_eq_false in H. tauto.
Qed.

Lemma needs_quote_cons (c : ascii) (f : text) :
  needs_quote (c :: f) = false -> special c = false /\ needs_quote f = false.
Proof. unfold needs_quote; simpl. apply orb_false_iff. Qed.

(** Inside a field that needs no quotes. *)
Lemma run_in_field (f acc : text) (ln : list text) (lns : list (list text)) :
  needs_quote f = false ->
  fold_left step f (mkTok IN_FIELD acc ln lns) = mkTok IN_FIELD (acc ++ f) ln lns.
Proof.
  revert acc; induction f as [|c f IH]; intros acc Hq; simpl.
  - rewrite app_nil_r; done.
  - apply needs_quote_cons in Hq as [Hc Hq].
    apply special_false in Hc as (H1 & H2 & H3 & H4).
    unfold step at 2; simpl. unfold in_field.
    rewrite !decide_False by done.
    unfold PUSH_CHAR; simpl. rewrite IH by done.
    rewrite <- app_assoc; done.
Qed.

(** Inside the quotes. *)
Lemma run_in_quoted (f acc : text) (ln : list text) (lns : list (list text)) :
  fold_left step (double_quotes f) (mkTok IN_QUOTED_FIELD acc ln lns) =
  mkTok IN_QUOTED_FIELD (acc ++ f) ln lns.
Proof.
  revert acc; induction f as [|c f IH]; intros acc; simpl.
  - rewrite app_nil_r; done.
  - destruct (decide (c = QUOTE)) as [->|Hc]; simpl.
    + unfold step at 2 3; simpl. unfold PUSH_CHAR, set_state; simpl.
      rewrite IH, <- app_assoc; done.
    + unfold step at 2; simpl. rewrite decide_False by done.
      unfold PUSH_CHAR; simpl. rewrite IH, <- app_assoc; done.
Qed.

Lemma field_read_comma (f : text) (ln : list text) (lns : list (list text))
    (t : tokenizer) :
  field_read f ln lns t -> step t COMMA = mkTok START_FIELD [] (ln ++ [f]) lns.
Proof. intros [->| |]; reflexivity. Qed.

Lemma field_read_lf (f : text) (ln : list text) (lns : list (list text))
    (t : tokenizer) :
  field_read f ln lns t ->
  step t LF = mkTok START_RECORD [] [] (lns ++ [ln ++ [f]]).
Proof. intros [->| |]; reflexivity. Qed.

Lemma run_quoted (f : text) (ln : list text) (lns : list (list text)) :
  fold_left step (quoted f) (mkTok START_FIELD [] ln lns) =
  mkTok QUOTE_IN_QUOTED_FIELD f ln lns.
Proof.
  unfold quoted. cbn [fold_left]. rewrite fold_left_app.
  change (step (mkTok START_FIELD [] ln lns) QUOTE)
    with (mkTok IN_QUOTED_FIELD [] ln lns).
  rewrite run_in_quoted. reflexivity.
Qed.

Lemma run_plain (f : text) (ln : list text) (lns : list (list text)) :
  needs_quote f = false ->
  field_read f ln lns (fold_left step f (mkTok START_FIELD [] ln lns)).
Proof.
  destruct f as [|c f]; intros Hq; simpl; [constructor; done|].
  apply needs_quote_cons in Hq as [Hc Hq].
  apply special_false in Hc as (H1 & H2 & H3 & H4).
  unfold step at 2; simpl. unfold start_field.
  rewrite !decide_False by done.
  unfold PUSH_CHAR, set_state; simpl. rewrite run_in_field by done.
  constructor.
Qed.

(** A field of the file, read from the start of a field. *)
Lemma run_csv_field (f : text) (ln : list text) (lns : list (list text)) :
  field_read f ln lns (fold_left step (csv_field f) (mkTok START_FIELD [] ln lns)).
Proof.
  unfold csv_field. destruct (needs_quote f) eqn:Hq.
  - rewrite run_quoted. constructor.
  - apply run_plain; done.
Qed.

(** The fields of a line from the second on, up to the line feed. *)
Lemma run_fields (fs ln : list text) (lns : list (list text)) :
  fs <> [] ->
  fold_left step (join_fields fs ++ [LF]) (mkTok START_FIELD [] ln lns) =
  mkTok START_RECORD [] [] (lns ++ [ln ++ fs]).
Proof.
  revert ln; induction fs as [|f fs IH]; intros ln Hne; [done|].
  destruct fs as [|g fs].
  - cbn [join_fields]. rewrite fold_left_app; cbn [fold_left].
    apply field_read_lf, run_csv_field.
  - cbn [join_fields]. rewrite <- app_assoc, fold_left_app. cbn [app fold_left].
    rewrite (field_read_comma f ln lns) by apply run_csv_field.
    cbn [join_fields] in IH. rewrite IH by done.
    rewrite <- app_assoc; done.
Qed.

Lemma is_ws_not_special (c : ascii) :
  is_ws c = true -> c <> COMMA /\ c <> QUOTE /\ c <> LF /\ c <> CR.
Proof.
  unfold is_ws. intros H. apply bool_decide_eq_true in H.
  destruct H as [->| ->]; repeat split; discriminate.
Qed.

(** A line that began with blanks, up to the comma behind its first
    field. *)
Lemma run_whitespace_line (f acc : text) (ln : list text) (lns : list (list text)) :
  needs_quote f = false ->
  fold_left step (f ++ [COMMA]) (mkTok WHITESPACE_LINE acc ln lns) =
  mkTok START_FIELD [] (ln ++ [acc ++ f]) lns.
Proof.
  revert acc; induction f as [|c f IH]; intros acc Hq.
  - rewrite app_nil_r. reflexivity.
  - apply needs_quote_cons in Hq as [Hc Hq].
    apply special_false in Hc as (H1 & H2 & H3 & H4).
    cbn [app fold_left]. unfold step at 2; cbn [state].
    rewrite !decide_False by done.
    destruct (is_ws c) eqn:Hw.
    + unfold PUSH_CHAR; cbn. rewrite IH by done. rewrite <- app_assoc; done.
    + unfold in_field. rewrite !decide_False by done.
      unfold PUSH_CHAR, set_state; cbn.
      rewrite fold_left_app, run_in_field by done. cbn.
      rewrite <- app_assoc; done.
Qed.

(** The first field of a line and the comma behind it. *)
Lemma run_first_field (f : text) (lns : list (list text)) :
  fold_left step (csv_field f ++ [COMMA]) (mkTok START_RECORD [] [] lns) =
  mkTok START_FIELD [] [f] lns.
Proof.
  unfold csv_field. destruct (needs_quote f) eqn:Hq.
  - rewrite fold_left_app. unfold quoted. cbn [fold_left].
    change (step (mkTok START_RECORD [] [] lns) QUOTE)
      with (mkTok IN_QUOTED_FIELD [] [] lns).
    rewrite fold_left_app, run_in_quoted. reflexivity.
  - destruct f as [|c f]; [reflexivity|].
    pose proof Hq as Hq'.
    apply needs_quote_cons in Hq as [Hc Hq].
    apply special_false in Hc as (H1 & H2 & H3 & H4).
    cbn [app fold_left]. unfold step at 2; cbn [state]. unfold start_record.
    rewrite !decide_False by done.
    destruct (is_ws c) eqn:Hw.
    + unfold PUSH_CHAR, set_state; cbn.
      rewrite run_whitespace_line by done. reflexivity.
    + unfold start_field. rewrite !decide_False by done.
      unfold PUSH_CHAR, set_state; cbn.
      rewrite fold_left_app, run_in_field by done. reflexivity.
Qed.

(** A line of two fields or more. *)
Lemma run_csv_line (fs : list text) (lns : list (list text)) :
  (2 <= length fs)%nat ->
  fold_left step (csv_line fs) (mkTok START_RECORD [] [] lns) =
  mkTok START_RECORD [] [] (lns ++ [fs]).
Proof.
  destruct fs as [|f [|g fs]]; simpl length; try lia. intros _.
  assert (Hline : csv_line (f :: g :: fs) =
                  (csv_field f ++ [COMMA]) ++ (join_fields (g :: fs) ++ [LF])).
  { unfold csv_line. destruct f; cbn [join_fields]; rewrite <- !app_assoc; done. }
  rewrite Hline, fold_left_app, run_first_field, run_fields by done.
  reflexivity.
Qed.

Lemma run_csv_lines (grid lns : list (list text)) :
  Forall (fun fs => (2 <= length fs)%nat) grid ->
  fold_left step (csv_lines grid) (mkTok START_RECORD [] [] lns) =
  mkTok START_RECORD [] [] (lns ++ grid).
Proof.
  intros Hg; revert lns; induction Hg as [|fs grid Hfs _ IH]; intros lns.
  - rewrite app_nil_r; reflexivity.
  - unfold csv_lines; cbn [map List.concat]. rewrite fold_left_app.
    rewrite run_csv_line by done. fold (csv_lines grid).
    rewrite IH, <- app_assoc; done.
Qed.

(** The tokenizer reads back the fields that were written. *)
Lemma tokenize_csv_lines (grid : list (list text)) :
  Forall (fun fs => (2 <= length fs)%nat) grid ->
  tokenize (csv_lines grid) = inr grid.
Proof.
  intros Hg. unfold tokenize. rewrite run_csv_lines by done. reflexivity.
Qed.

(** ** The CSV round trip: integers *)

Lemma digit_char_spec (d : Z) :
  0 <= d < 10 ->
  is_digit (digit_char d) = true /\ digit_val (digit_char d) = d /\
  is_space (digit_char d) = false /\
  digit_char d <> "-"%char /\ digit_char d <> "+"%char.
Proof.
  intros Hd.
  assert (H : d = 0 \/ d = 1 \/ d = 2 \/ d = 3 \/ d = 4 \/ d = 5 \/ d = 6 \/
              d = 7 \/ d = 8 \/ d = 9) by lia.
  repeat (destruct H as [->|H]); try subst d; repeat split; try reflexivity;
    discriminate.
Qed.

Lemma digits_val_snoc (ds : text) (c : ascii) :
  digits_val (ds ++ [c]) = 10 * digits_val ds + digit_val c.
Proof. unfold digits_val. rewrite fold_left_app. reflexivity. Qed.

Lemma single_digit (n : Z) (acc : text) :
  0 <= n < 10 ->
  exists ds, digit_char n :: acc = ds ++ acc /\
             ds <> [] /\ forallb is_digit ds = true /\ digits_val ds = n.
Proof.
  intros Hn. destruct (digit_char_spec n Hn) as (H1 & H2 & _).
  exists [digit_char n].
  split; [done|]. split; [done|]. split.
  - simpl. rewrite H1; done.
  - unfold digits_val; simpl. lia.
Qed.

Lemma digits_fuel_spec (fuel : nat) (n : Z) (acc : text) :
  0 <= n < 2 ^ Z.of_nat (S fuel) ->
  exists ds, digits_fuel (S fuel) n acc = ds ++ acc /\
             ds <> [] /\ forallb is_digit ds = true /\ digits_val ds = n.
Proof.
  revert n acc; induction fuel as [|fuel IH]; intros n acc Hn.
  - change (2 ^ Z.of_nat 1) with 2 in Hn.
    cbn [digits_fuel]. replace (n <? 10) with true by (symmetry; apply Z.ltb_lt; lia).
    rewrite Z.mod_small by lia. apply single_digit; lia.
  - cbn [digits_fuel]. destruct (n <? 10) eqn:E.
    + apply Z.ltb_lt in E. rewrite Z.mod_small by lia.
      apply single_digit; lia.
    + apply Z.ltb_ge in E.
      assert (Hdiv : 0 <= n / 10 < 2 ^ Z.of_nat (S fuel)).
      { split; [apply Z.div_pos; lia|].
        apply Z.div_lt_upper_bound; [lia|].
        rewrite (Nat2Z.inj_succ (S fuel)), Z.pow_succ_r in Hn by lia. lia. }
      destruct (IH (n / 10) (digit_char (n mod 10) :: acc) Hdiv)
        as (ds & Hds & Hne & Hdig & Hval).
      destruct (digit_char_spec (n mod 10)) as (H1 & H2 & _);
        [apply Z.mod_pos_bound; lia|].
      exists (ds ++ [digit_char (n mod 10)]).
      split; [|split; [|split]].
      * cbn [digits_fuel] in Hds. rewrite Hds, <- app_assoc; done.
      * destruct ds; done.
      * rewrite forallb_app, Hdig; simpl. rewrite H1; done.
      * rewrite digits_val_snoc, Hval, H2.
        pose proof (Z.div_mod n 10). lia.
Qed.

Lemma nat_digits_spec (n : Z) :
  0 <= n ->
  nat_digits n <> [] /\ forallb is_digit (nat_digits n) = true /\
  digits_val (nat_digits n) = n.
Proof.
  intros Hn. unfold nat_digits.
  destruct (digits_fuel_spec (Z.to_nat (Z.log2 n)) n []) as (ds & -> & H1 & H2 & H3).
  - split; [done|]. rewrite Nat2Z.inj_succ, Z2Nat.id by apply Z.log2_nonneg.
    destruct (Z.eq_dec n 0) as [->|Hz]; [done|].
    apply Z.log2_spec. lia.
  - rewrite app_nil_r. done.
Qed.

Lemma span_all (p : ascii -> bool) (s : text) :
  forallb p s = true -> span p s = s /\ skip p s = [].
Proof.
  induction s as [|c s IH]; simpl; [done|].
  rewrite andb_true_iff. intros [-> Hs]. destruct (IH Hs) as [-> ->]. done.
Qed.

Lemma is_digit_not_space (c : ascii) : is_digit c = true -> is_space c = false.
Proof.
  unfold is_digit, is_space. intros H. apply bool_decide_eq_true in H.
  apply bool_decide_eq_false. lia.
Qed.

Lemma is_digit_not_sign (c : ascii) :
  is_digit c = true -> c <> "-"%char /\ c <> "+"%char.
Proof.
  unfold is_digit. intros H. apply bool_decide_eq_true in H.
  split; intros ->; vm_compute in H; lia.
Qed.

(** An int64 is read back from its decimal text. *)
Lemma parse_int_Z_to_text (z : Z) :
  INT64_MIN <= z <= INT64_MAX -> parse_int (Z_to_text z) = Some z.
Proof.
  intros Hz. unfold Z_to_text, parse_int.
  assert (Hrange : (INT64_MIN <=? z) && (z <=? INT64_MAX) = true).
  { apply andb_true_iff; split; apply Z.leb_le; lia. }
  destruct (z <? 0) eqn:E.
  - apply Z.ltb_lt in E.
    destruct (nat_digits_spec (- z)) as (Hne & Hdig & Hval); [lia|].
    cbn [skip]. change (is_space "-") with false. cbv iota.
    cbn [skip_sign is_negative]. rewrite decide_True by (left; done).
    destruct (span_all _ _ Hdig) as [-> ->].
    rewrite bool_decide_true by done. rewrite Hval.
    replace (- - z) with z by lia. rewrite Hrange.
    destruct (nat_digits (- z)); done.
  - apply Z.ltb_ge in E.
    destruct (nat_digits_spec z) as (Hne & Hdig & Hval); [lia|].
    destruct (nat_digits z) as [|c ds] eqn:Eds; [done|].
    pose proof Hdig as Hdig'. cbn [forallb] in Hdig'.
    apply andb_true_iff in Hdig' as [Hc _].
    cbn [skip]. rewrite (is_digit_not_space c Hc).
    destruct (is_digit_not_sign c Hc) as [Hm Hp].
    cbn [skip_sign is_negative].
    rewrite decide_False by tauto.
    destruct (span_all _ _ Hdig) as [-> ->].
    rewrite bool_decide_false by done. rewrite Hval, Hrange. done.
Qed.

(** ** The CSV round trip: column types *)

Lemma infer_int_column (col : list cell) :
  forallb int_cell col = true ->
  exists zs, mapM parse_int (map cell_text col) = Some zs /\ map CInt zs = col.
Proof.
  induction col as [|c col IH]; [exists []; done|].
  cbn [forallb]. rewrite andb_true_iff. intros [Hc Hcol].
  destruct (IH Hcol) as (zs & Hzs & <-).
  destruct c as [z| | | |]; try done.
  unfold int_cell in Hc. apply andb_true_iff in Hc as [H1 H2].
  apply Z.leb_le in H1, H2.
  exists (z :: zs). cbn [map cell_text mapM].
  rewrite parse_int_Z_to_text by lia. cbn. rewrite Hzs. done.
Qed.

Lemma mapM_None_elem {A B} (f : A -> option B) (l : list A) (x : A) :
  x ∈ l -> f x = None -> mapM f l = None.
Proof.
  intros Hx Hf. destruct (mapM f l) eqn:E; [|done].
  assert (Hs : is_Some (mapM f l)) by (rewrite E; eauto).
  apply mapM_is_Some in Hs. rewrite Forall_forall in Hs.
  destruct (Hs x Hx) as [y Hy]. congruence.
Qed.

Lemma text_cells_read_back (col : list cell) :
  forallb text_cell col = true ->
  map (fun f => if is_na f then CNaN else CStr f) (map cell_text col) = col.
Proof.
  induction col as [|c col IH]; [done|].
  cbn [forallb]. rewrite andb_true_iff. intros [Hc Hcol].
  cbn [map]. rewrite (IH Hcol). f_equal.
  destruct c; try done. simpl in *. apply negb_true_iff in Hc. rewrite Hc. done.
Qed.

Lemma all_missing_column (col : list cell) :
  forallb (fun c => negb (notna c)) col = true ->
  infer_column (map cell_text col) = col.
Proof.
  intros Hall.
  assert (Hcol : col = map (fun _ => CNaN) col).
  { induction col as [|c col IH]; [done|]. cbn [forallb] in Hall.
    apply andb_true_iff in Hall as [Hc Hcol]. cbn [map]. rewrite <- (IH Hcol).
    destruct c; done. }
  rewrite Hcol at 1. rewrite map_map. cbn [cell_text].
  destruct col as [|c col]; [reflexivity|].
  unfold infer_column.
  rewrite (mapM_None_elem parse_int _ []); [|left|reflexivity].
  assert (Hp : filter (fun f => is_na f = false)
                 (map (fun _ : cell => @nil ascii) (c :: col)) = []).
  { apply filter_none, Forall_forall. intros f Hf.
    apply list_elem_of_fmap in Hf as (? & -> & _). done. }
  rewrite Hp. cbn [forallb]. rewrite map_map.
  rewrite Hcol at 2. apply map_ext. done.
Qed.

Lemma word_column (col : list cell) :
  forallb text_cell col = true -> existsb word_cell col = true ->
  infer_column (map cell_text col) = col.
Proof.
  intros Htext Hword.
  apply existsb_exists in Hword as (c & Hc & Hw).
  destruct c as [| | |s|]; try done. simpl in Hw.
  rewrite !andb_true_iff, !negb_true_iff in Hw.
  destruct Hw as (((Hna & Hfl) & Hint) & Hbool).
  apply bool_decide_eq_true in Hint, Hbool.
  assert (Hin : s ∈ map cell_text col).
  { apply list_elem_of_fmap. exists (CStr s). split; [done|].
    apply list_elem_of_In; done. }
  assert (Hpres : s ∈ filter (fun f => is_na f = false) (map cell_text col)).
  { apply list_elem_of_filter; done. }
  unfold infer_column.
  rewrite (mapM_None_elem parse_int _ s Hin Hint).
  assert (Hf : forallb is_float_lit
                 (filter (fun f => is_na f = false) (map cell_text col)) = false).
  { apply not_true_is_false. intros H. rewrite forallb_forall in H.
    apply list_elem_of_In in Hpres. rewrite (H s Hpres) in Hfl. done. }
  rewrite Hf, (mapM_None_elem parse_bool _ s Hpres Hbool).
  apply text_cells_read_back; done.
Qed.

(** A column that keeps its type is read back cell for cell. *)
Lemma infer_keeps_type (col : list cell) :
  keeps_type col = true -> infer_column (map cell_text col) = col.
Proof.
  unfold keeps_type. rewrite orb_true_iff, andb_true_iff, orb_true_iff.
  intros [Hint | [Htext [Hword | Hnone]]].
  - destruct (infer_int_column col Hint) as (zs & Hzs & Hcol).
    unfold infer_column. rewrite Hzs. done.
  - apply word_column; done.
  - apply all_missing_column; done.
Qed.

(** ** The CSV round trip: frames *)

Lemma column_texts_cells (rws : list (list cell)) (j : nat) :
  column_texts (map (map cell_text) rws) j = map cell_text (column_cells rws j).
Proof.
  unfold column_texts, column_cells. rewrite !map_map. apply map_ext.
  intros r. rewrite list_lookup_fmap. destruct (r !! j); done.
Qed.

Lemma infer_rows_stable (width : nat) (rws : list (list cell)) :
  Forall (fun r => length r = width) rws ->
  forallb (fun j => keeps_type (column_cells rws j)) (seq 0 width) = true ->
  infer_rows width (map (map cell_text) rws) = rws.
Proof.
  intros Hlen Hkeep. unfold infer_rows. rewrite length_map.
  assert (Hcols : map (fun j => infer_column (column_texts (map (map cell_text) rws) j))
                    (seq 0 width) =
                  map (column_cells rws) (seq 0 width)).
  { apply map_ext_in. intros j Hj. rewrite column_texts_cells.
    apply infer_keeps_type. rewrite forallb_forall in Hkeep. auto. }
  rewrite Hcols. apply list_eq. intros k.
  rewrite list_lookup_fmap.
  destruct (rws !! k) as [r|] eqn:Hr.
  - rewrite (lookup_seq_lt _ _ k) by (eapply lookup_lt_Some; eauto). cbn.
    f_equal. rewrite map_map. apply list_eq. intros j.
    rewrite list_lookup_fmap.
    assert (Hrl : length r = width).
    { rewrite Forall_forall in Hlen. apply Hlen. eapply list_elem_of_lookup_2; eauto. }
    destruct (decide (j < width)%nat) as [Hj|Hj].
    + rewrite lookup_seq_lt by done. cbn. unfold column_cells.
      rewrite list_lookup_fmap, Hr. cbn.
      destruct (r !! j) eqn:Hrj; [done|].
      apply lookup_ge_None in Hrj. lia.
    + rewrite lookup_seq_ge by lia. cbn. symmetry.
      apply lookup_ge_None. lia.
  - rewrite lookup_seq_ge by (apply lookup_ge_None in Hr; lia). done.
Qed.

Lemma pad_full (width : nat) (r : list text) :
  length r = width -> drop (width - width) (pad width r) = r.
Proof.
  intros <-. unfold pad. rewrite Nat.sub_diag. simpl. apply app_nil_r.
Qed.

(** What was written is read back. *)
Lemma read_csv_to_csv (df : DataFrame) :
  wf_frame df -> (2 <= length (columns df))%nat ->
  Forall (fun n => n <> []) (columns df) ->
  csv_stable df = true ->
  read_csv (to_csv df) = inr df.
Proof.
  intros [Hnd Hlen] Hwide Hlab Hst.
  unfold read_csv, to_csv. rewrite tokenize_csv_lines.
  2:{ constructor; [done|]. apply Forall_forall. intros fs Hfs.
      apply list_elem_of_fmap in Hfs as (r & -> & Hr).
      rewrite Forall_forall in Hlen. rewrite length_map, (Hlen r Hr). done. }
  set (data := map (map cell_text) (rows df)).
  assert (Hdata : Forall (fun r => length r = length (columns df)) data).
  { apply Forall_forall. intros fs Hfs.
    apply list_elem_of_fmap in Hfs as (r & -> & Hr).
    rewrite Forall_forall in Hlen. rewrite length_map. auto. }
  assert (Hw : (length (columns df) `max` length (default [] (head data)))%nat
               = length (columns df)).
  { destruct data as [|r data']; simpl; [lia|].
    inversion Hdata; subst. lia. }
  rewrite Hw.
  assert (Hex : existsb (fun r => (length (columns df) <? length r)%nat) data = false).
  { apply not_true_is_false. intros Hex.
    apply existsb_exists in Hex as (r & Hin & Hr).
    rewrite Forall_forall in Hdata. apply list_elem_of_In in Hin.
    rewrite (Hdata r Hin) in Hr. apply Nat.ltb_lt in Hr. lia. }
  rewrite Hex, mangle_id by done.
  assert (Hpad : map (fun r => drop (length (columns df) - length (columns df))
                                 (pad (length (columns df)) r)) data = data).
  { rewrite <- (map_id data) at 2. apply map_ext_Forall.
    eapply Forall_impl; [exact Hdata|]. intros r Hr. apply pad_full; done. }
  rewrite Hpad. unfold data. rewrite infer_rows_stable by done.
  rewrite frame_eta. done.
Qed.




(** ** The first case of a new log *)

(** From no file to one saved record: the record gets the number 1, it is
    the one case in which the operator is the primary surgeon, and the
    saved file loads as a frame with this one row. *)
Lemma first_case_scenario :
  exists (df : DataFrame) (n : Z) (l : nat) (h : gmap nat DataFrame)
         (logged : DataFrame),
    load_data None = inr df /\
    new_case_number df = Some n /\ n = 1 /\
    append {[ 0%nat := df ]} 0
      (new_entry (CInt n)
         (mkForm (txt "2025-001") 34 (mkDate 2025 1 10) (txt "General")
            (txt "Dr. X") (txt "Appendicitis") (txt "Appendectomy")
            (txt "General") (txt "Uneventful") (txt "Primary Surgeon")
            (txt "Dr. X") [] [])) = Some (l, h) /\
    h !! l = Some logged /\
    length (rows logged) = 1%nat /\
    at_ logged 0 (txt "Number") = Some (CInt 1) /\
    at_ logged 0 (txt "Date") = Some (CStr (txt "2025-01-10")) /\
    count_where logged (txt "My_Role") (CStr (txt "Primary Surgeon")) = Some 1%nat /\
    exists df', load_data (save_data logged None) = inr df' /\
                length (rows df') = 1%nat.
Proof.
  do 5 eexists. split; [reflexivity|]. split; [reflexivity|].
  split; [reflexivity|]. split; [vm_compute; reflexivity|].
  split; [vm_compute; reflexivity|].
  repeat (split; [reflexivity|]).
  eexists; split; [vm_compute; reflexivity | reflexivity].
Qed.

(** * Further properties *)

(** ** Saving and loading, column by column *)

Lemma infer_column_length (fs : list text) :
  length (infer_column fs) = length fs.
Proof.
  unfold infer_column. destruct (mapM parse_int fs) as [zs|] eqn:E.
  - rewrite length_map. symmetry. eapply length_mapM; eauto.
  - destruct (forallb is_float_lit _); [apply length_map|].
    destruct (mapM parse_bool _); apply length_map.
Qed.

Lemma map_lookup_seq {A} (d : A) (l : list A) :
  map (fun k => default d (l !! k)) (seq 0 (length l)) = l.
Proof.
  apply list_eq. intros k. rewrite list_lookup_fmap.
  destruct (l !! k) as [x|] eqn:Hk.
  - rewrite lookup_seq_lt by (eapply lookup_lt_Some; eauto). cbn.
    rewrite Hk. done.
  - rewrite lookup_seq_ge by (apply lookup_ge_None in Hk; lia). done.
Qed.

(** A column of the rows that [infer_rows] builds is the inferred column. *)
Lemma infer_rows_column (width : nat) (grid : list (list text)) (j : nat) :
  (j < width)%nat ->
  column_cells (infer_rows width grid) j = infer_column (column_texts grid j).
Proof.
  intros Hj. unfold column_cells, infer_rows. rewrite map_map.
  rewrite <- (map_lookup_seq CNaN (infer_column (column_texts grid j))).
  rewrite infer_column_length. unfold column_texts at 3. rewrite length_map.
  apply map_ext. intros k. rewrite list_lookup_fmap.
  rewrite list_lookup_fmap, lookup_seq_lt by done. done.
Qed.

Lemma series_column_cells (df : DataFrame) (name : text) (col : list cell) :
  series df name = Some col <->
  exists j, col_index name (columns df) = Some j /\ col = column_cells (rows df) j.
Proof.
  unfold series, column_cells.
  destruct (col_index name (columns df)) as [j|]; simpl.
  - split; [intros [= <-]; eauto | intros (? & [= <-] & ->); done].
  - split; [done | intros (? & ? & _); done].
Qed.

Lemma col_index_lt (name : text) (cols : list text) (j : nat) :
  col_index name cols = Some j -> (j < length cols)%nat.
Proof.
  intros H. apply col_index_lookup in H. eapply lookup_lt_Some; eauto.
Qed.

(** The frame that is read from a written file. *)
Lemma read_csv_to_csv_frame (df : DataFrame) :
  wf_frame df -> (2 <= length (columns df))%nat ->
  Forall (fun n => n <> []) (columns df) ->
  read_csv (to_csv df) =
  inr (mkFrame (columns df)
         (infer_rows (length (columns df)) (map (map cell_text) (rows df)))).
Proof.
  intros [Hnd Hlen] Hwide Hlab.
  unfold read_csv, to_csv. rewrite tokenize_csv_lines.
  2:{ constructor; [done|]. apply Forall_forall. intros fs Hfs.
      apply list_elem_of_fmap in Hfs as (r & -> & Hr).
      rewrite Forall_forall in Hlen. rewrite length_map, (Hlen r Hr). done. }
  set (data := map (map cell_text) (rows df)).
  assert (Hdata : Forall (fun r => length r = length (columns df)) data).
  { apply Forall_forall. intros fs Hfs.
    apply list_elem_of_fmap in Hfs as (r & -> & Hr).
    rewrite Forall_forall in Hlen. rewrite length_map. auto. }
  assert (Hw : (length (columns df) `max` length (default [] (head data)))%nat
               = length (columns df)).
  { destruct data as [|r data']; simpl; [lia|].
    inversion Hdata; subst. lia. }
  rewrite Hw.
  assert (Hex : existsb (fun r => (length (columns df) <? length r)%nat) data = false).
  { apply not_true_is_false. intros Hex.
    apply existsb_exists in Hex as (r & Hin & Hr).
    rewrite Forall_forall in Hdata. apply list_elem_of_In in Hin.
    rewrite (Hdata r Hin) in Hr. apply Nat.ltb_lt in Hr. lia. }
  rewrite Hex, mangle_id by done.
  assert (Hpad : map (fun r => drop (length (columns df) - length (columns df))
                                 (pad (length (columns df)) r)) data = data).
  { rewrite <- (map_id data) at 2. apply map_ext_Forall.
    eapply Forall_impl; [exact Hdata|]. intros r Hr. apply pad_full; done. }
  rewrite Hpad. done.
Qed.

(** What a save and a load keep of any frame, and of each of its columns
    that keeps its type. *)
Lemma reload_frame (df : DataFrame) (d : disk) :
  wf_frame df -> (2 <= length (columns df))%nat ->
  Forall (fun n => n <> []) (columns df) ->
  exists df',
    load_data (save_data df d) = inr df' /\
    columns df' = columns df /\
    length (rows df') = length (rows df) /\
    wf_frame df' /\
    (forall name col, series df name = Some col -> keeps_type col = true ->
                      series df' name = Some col).
Proof.
  intros Hwf Hwide Hlab. rewrite save_data_overwrites. cbn [load_data].
  rewrite read_csv_to_csv_frame by done.
  eexists; split; [reflexivity|]. cbn [columns rows].
  destruct (infer_rows_shape (length (columns df)) (map (map cell_text) (rows df)))
    as [Hn Hshape].
  split; [done|]. split; [rewrite Hn, length_map; done|].
  split; [split; [apply Hwf | exact Hshape]|].
  intros name col Hs Hk.
  apply series_column_cells in Hs as (j & Hj & ->).
  apply series_column_cells. exists j. split; [done|]. cbn [rows].
  rewrite infer_rows_column by (eapply col_index_lt; eauto).
  rewrite column_texts_cells. symmetry. apply infer_keeps_type; done.
Qed.

Lemma reload_frame_cells (df : DataFrame) (d : disk) :
  wf_frame df -> (2 <= length (columns df))%nat ->
  Forall (fun n => n <> []) (columns df) ->
  exists df',
    load_data (save_data df d) = inr df' /\
    columns df' = columns df /\
    length (rows df') = length (rows df) /\
    wf_frame df' /\
    (forall j, (j < length (columns df))%nat ->
               keeps_type (column_cells (rows df) j) = true ->
               column_cells (rows df') j = column_cells (rows df) j).
Proof.
  intros Hwf Hwide Hlab. rewrite save_data_overwrites. cbn [load_data].
  rewrite read_csv_to_csv_frame by done.
  eexists; split; [reflexivity|]. cbn [columns rows].
  destruct (infer_rows_shape (length (columns df)) (map (map cell_text) (rows df)))
    as [Hn Hshape].
  split; [done|]. split; [rewrite Hn, length_map; done|].
  split; [split; [apply Hwf | exact Hshape]|].
  intros j Hj Hk. rewrite infer_rows_column by done.
  rewrite column_texts_cells. apply infer_keeps_type; done.
Qed.

(** ** The handler *)

Lemma schema_frame_wf (df : DataFrame) : schema_frame df -> wf_frame df.
Proof.
  intros [Hc Hr]. split; rewrite Hc; [|exact Hr].
  apply (bool_decide_unpack _). vm_compute. exact I.
Qed.

Lemma schema_labels : Forall (fun n : text => n <> []) SCHEMA.
Proof. repeat constructor; discriminate. Qed.

Lemma new_case_number_ints (df : DataFrame) (zs : list Z) :
  series df (txt "Number") = Some (map CInt zs) ->
  new_case_number df = Some (match series_max zs with
                             | Some m => m + 1
                             | None => 1
                             end).
Proof.
  intros Hs. pose proof (series_length _ _ _ Hs) as Hlen.
  rewrite length_map in Hlen.
  unfold new_case_number, empty.
  destruct (columns df) eqn:Ec.
  { unfold series in Hs. rewrite Ec in Hs. done. }
  destruct (rows df) eqn:Er.
  - destruct zs; [done | simpl in Hlen; lia].
  - rewrite Hs; simpl. rewrite ints_of_CInt; simpl.
    destruct zs as [|z zs]; [simpl in Hlen; lia|]. done.
Qed.

Lemma series_max_spec (zs : list Z) (m : Z) :
  series_max zs = Some m -> m ∈ zs /\ forall z, z ∈ zs -> z <= m.
Proof.
  destruct zs as [|z zs]; [done|]. intros [= <-].
  destruct (max_list_spec zs z) as (Hin & Hge & Hall). split.
  - destruct Hin as [->|Hin]; [left | right; done].
  - intros y Hy. apply elem_of_cons in Hy as [->|Hy]; auto.
Qed.

Lemma entry_row_length (n : Z) (f : Form) : length (entry_row n f) = 14%nat.
Proof. reflexivity. Qed.

Lemma log_case_schema (df : DataFrame) (f : Form) (d : disk) (n : Z) :
  schema_frame df -> new_case_number df = Some n ->
  log_case df f d =
  Some (mkFrame SCHEMA (rows df ++ [entry_row n f]),
        Some (to_csv (mkFrame SCHEMA (rows df ++ [entry_row n f])))).
Proof.
  intros Hsf Hn. unfold log_case. rewrite Hn; simpl.
  pose proof (schema_frame_wf df Hsf) as Hwf. destruct Hsf as [Hc Hr].
  rewrite save_data_overwrites.
  rewrite (concat_rows_same_columns df) ; [rewrite Hc; done | done | simpl; done |].
  repeat constructor.
Qed.

Lemma column_cells_snoc (rws : list (list cell)) (r : list cell) (j : nat) :
  column_cells (rws ++ [r]) j = column_cells rws j ++ [default CNaN (r !! j)].
Proof. unfold column_cells. rewrite map_app. done. Qed.

Lemma series_max_Some (zs : list Z) : zs <> [] -> is_Some (series_max zs).
Proof. destruct zs; [done | eauto]. Qed.

(** The number of the handler, from the integers of the Number column. *)
Lemma next_number_spec (df : DataFrame) (zs : list Z) :
  series df (txt "Number") = Some (map CInt zs) ->
  exists n, new_case_number df = Some n /\
            (forall z, z ∈ zs -> z < n) /\
            (zs = [] -> n = 1) /\
            (zs <> [] -> n - 1 ∈ zs).
Proof.
  intros Hs. rewrite (new_case_number_ints df zs Hs).
  destruct (series_max zs) as [m|] eqn:Em.
  - destruct (series_max_spec zs m Em) as [Hin Hall].
    exists (m + 1). split; [done|]. split; [|split].
    + intros z Hz. specialize (Hall z Hz). lia.
    + intros ->. done.
    + intros _. replace (m + 1 - 1) with m by lia. done.
  - destruct zs; [|done]. exists 1. split; [done|]. split; [|split]; [|done|done].
    intros z Hz. inversion Hz.
Qed.




(** ** The text of a date *)

Lemma span_digits_stop (D r : text) (c : ascii) :
  forallb is_digit D = true -> is_digit c = false ->
  span is_digit (D ++ c :: r) = D /\ skip is_digit (D ++ c :: r) = c :: r.
Proof.
  intros HD Hc. induction D as [|a D IH]; simpl.
  - rewrite Hc. done.
  - simpl in HD. apply andb_true_iff in HD as [-> HD].
    destruct (IH HD) as [-> ->]. done.
Qed.

Lemma is_digit_lower (c : ascii) : is_digit c = true -> lower c = c.
Proof.
  unfold is_digit, lower. intros H. apply bool_decide_eq_true in H.
  rewrite bool_decide_false by lia. done.
Qed.

Lemma zero_pad_digits (w : nat) (n : Z) :
  0 <= n ->
  zero_pad w (nat_digits n) <> [] /\
  forallb is_digit (zero_pad w (nat_digits n)) = true.
Proof.
  intros Hn. destruct (nat_digits_spec n Hn) as (Hne & Hdig & _).
  unfold zero_pad. split.
  - destruct (repeat "0"%char _); [done | done].
  - rewrite forallb_app, Hdig, andb_true_r.
    induction (w - length (nat_digits n))%nat as [|k IH]; [done|].
    simpl. exact IH.
Qed.

Lemma digit_led_not_na (s : text) : digit_led s = true -> is_na s = false.
Proof.
  intros Hs. apply bool_decide_eq_false. intros Hin.
  assert (Hall : forallb (fun v => negb (digit_led v)) NA_VALUES = true)
    by reflexivity.
  rewrite forallb_forall in Hall. apply list_elem_of_In in Hin.
  specialize (Hall s Hin). rewrite Hs in Hall. done.
Qed.

Lemma digit_led_not_bool (s : text) : digit_led s = true -> parse_bool s = None.
Proof.
  intros Hs. unfold parse_bool.
  assert (H1 : forallb (fun v => negb (digit_led v))
                 (map txt ["True"; "TRUE"; "true"]%string) = true) by reflexivity.
  assert (H2 : forallb (fun v => negb (digit_led v))
                 (map txt ["False"; "FALSE"; "false"]%string) = true) by reflexivity.
  rewrite forallb_forall in H1, H2.
  rewrite !bool_decide_false; [done| |].
  - intros Hin. apply list_elem_of_In in Hin. specialize (H2 s Hin).
    rewrite Hs in H2. done.
  - intros Hin. apply list_elem_of_In in Hin. specialize (H1 s Hin).
    rewrite Hs in H1. done.
Qed.

(** Digits, a hyphen, and more: such a text is read as a text. *)
Lemma hyphenated_word (D r : text) :
  D <> [] -> forallb is_digit D = true ->
  word_cell (CStr (D ++ "-"%char :: r)) = true.
Proof.
  intros Hne HD.
  assert (Hled : digit_led (D ++ "-"%char :: r) = true).
  { destruct D as [|c1 [|c2 D]]; [done| |]; simpl in *.
    - apply andb_true_iff in HD as [-> _]. done.
    - apply andb_true_iff in HD as [-> HD].
      apply andb_true_iff in HD as [-> _]. done. }
  assert (Hc1 : exists c1 t, D = c1 :: t /\ is_digit c1 = true).
  { destruct D as [|c1 t]; [done|]. simpl in HD.
    apply andb_true_iff in HD as [? _]. eauto. }
  destruct Hc1 as (c1 & t & HDeq & Hc1).
  assert (Hskip : skip is_space (D ++ "-"%char :: r) = D ++ "-"%char :: r).
  { rewrite HDeq. simpl. rewrite (is_digit_not_space c1 Hc1). done. }
  assert (Hsign : skip_sign (D ++ "-"%char :: r) = D ++ "-"%char :: r).
  { rewrite HDeq. simpl. destruct (is_digit_not_sign c1 Hc1).
    rewrite decide_False by tauto. done. }
  destruct (span_digits_stop D r "-"%char HD eq_refl) as [Hspan Hrest].
  unfold word_cell.
  rewrite (digit_led_not_na _ Hled), (digit_led_not_bool _ Hled).
  assert (Hint : parse_int (D ++ "-"%char :: r) = None).
  { unfold parse_int. rewrite Hskip, Hsign, Hspan, Hrest. simpl.
    destruct D; done. }
  rewrite Hint.
  assert (Hflt : is_float_lit (D ++ "-"%char :: r) = false).
  { unfold is_float_lit. rewrite Hskip, Hsign, Hspan, Hrest.
    rewrite HDeq. simpl.
    apply bool_decide_eq_false. rewrite (is_digit_lower c1 Hc1).
    intros [H|H]; injection H as -> _; done.  }
  rewrite Hflt. done.
Qed.

Lemma strftime_ymd_word (d : date) :
  0 <= year d -> word_cell (CStr (strftime_ymd d)) = true.
Proof.
  intros Hy. unfold strftime_ymd.
  destruct (zero_pad_digits 4 (year d) Hy) as [Hne Hdig].
  apply hyphenated_word; done.
Qed.

Lemma digits_fuel_length (fuel : nat) (n : Z) (acc : text) (k : nat) :
  (1 <= k)%nat -> 0 <= n < 10 ^ Z.of_nat k ->
  (length (digits_fuel fuel n acc) <= k + length acc)%nat.
Proof.
  revert n acc k; induction fuel as [|fuel IH]; intros n acc k Hk Hn; simpl; [lia|].
  destruct (n <? 10) eqn:E; [simpl; lia|].
  apply Z.ltb_ge in E.
  destruct k as [|[|k]]; [lia | change (10 ^ Z.of_nat 1) with 10 in Hn; lia |].
  assert (Hdiv : 0 <= n / 10 < 10 ^ Z.of_nat (S k)).
  { split; [apply Z.div_pos; lia|]. apply Z.div_lt_upper_bound; [lia|].
    rewrite (Nat2Z.inj_succ (S k)), Z.pow_succ_r in Hn by lia. lia. }
  specialize (IH (n / 10) (digit_char (n mod 10) :: acc) (S k) ltac:(lia) Hdiv).
  simpl in IH. lia.
Qed.

Lemma zero_pad_length (w : nat) (n : Z) :
  (1 <= w)%nat -> 0 <= n < 10 ^ Z.of_nat w ->
  length (zero_pad w (nat_digits n)) = w.
Proof.
  intros Hw Hn. unfold zero_pad. rewrite length_app, repeat_length.
  pose proof (digits_fuel_length (S (Z.to_nat (Z.log2 n))) n [] w Hw Hn) as H.
  fold (nat_digits n) in H. simpl in H. lia.
Qed.

Lemma digits_val_zeros (m : nat) (ds : text) :
  digits_val (repeat "0"%char m ++ ds) = digits_val ds.
Proof.
  unfold digits_val. rewrite fold_left_app.
  replace (fold_left (fun acc c => 10 * acc + digit_val c) (repeat "0"%char m) 0)
    with 0; [done|].
  induction m as [|m IH]; [done|]. simpl. exact IH.
Qed.

Lemma zero_pad_value (w : nat) (n : Z) :
  0 <= n -> digits_val (zero_pad w (nat_digits n)) = n.
Proof.
  intros Hn. unfold zero_pad. rewrite digits_val_zeros.
  apply nat_digits_spec; done.
Qed.

(** X4: the text of a date has ten characters, four digits for the year,
    two for the month and two for the day with a hyphen between them, and
    the three numbers are read back from it. *)
Theorem strftime_ymd_layout (d : date) :
  valid_date d = true ->
  length (strftime_ymd d) = 10%nat /\
  strftime_ymd d !! 4%nat = Some "-"%char /\
  strftime_ymd d !! 7%nat = Some "-"%char /\
  forallb is_digit (take 4 (strftime_ymd d)) = true /\
  forallb is_digit (take 2 (drop 5 (strftime_ymd d))) = true /\
  forallb is_digit (drop 8 (strftime_ymd d)) = true /\
  digits_val (take 4 (strftime_ymd d)) = year d /\
  digits_val (take 2 (drop 5 (strftime_ymd d))) = month d /\
  digits_val (drop 8 (strftime_ymd d)) = day d.
Proof.
  unfold valid_date. rewrite !andb_true_iff, !Z.leb_le.
  intros (((((Hy1 & Hy2) & Hm1) & Hm2) & Hd1) & Hd2).
  unfold strftime_ymd.
  set (Y := zero_pad 4 (nat_digits (year d))).
  set (M := zero_pad 2 (nat_digits (month d))).
  set (D := zero_pad 2 (nat_digits (day d))).
  assert (HY : length Y = 4%nat) by (apply zero_pad_length; simpl; lia).
  assert (HM : length M = 2%nat) by (apply zero_pad_length; simpl; lia).
  assert (HD : length D = 2%nat) by (apply zero_pad_length; simpl; lia).
  destruct (zero_pad_digits 4 (year d)) as [_ HYd]; [lia|].
  destruct (zero_pad_digits 2 (month d)) as [_ HMd]; [lia|].
  destruct (zero_pad_digits 2 (day d)) as [_ HDd]; [lia|].
  pose proof (zero_pad_value 4 (year d) ltac:(lia)) as HYv.
  pose proof (zero_pad_value 2 (month d) ltac:(lia)) as HMv.
  pose proof (zero_pad_value 2 (day d) ltac:(lia)) as HDv.
  fold Y in HYd, HYv. fold M in HMd, HMv. fold D in HDd, HDv.
  clearbody Y M D.
  destruct Y as [|y1 [|y2 [|y3 [|y4 [|? ?]]]]]; try discriminate.
  destruct M as [|m1 [|m2 [|? ?]]]; try discriminate.
  destruct D as [|d1 [|d2 [|? ?]]]; try discriminate.
  repeat split; done.
Qed.

(** ** A log built by submitting forms *)

Lemma kind_column_keeps (w : bool) (col : list cell) :
  forallb (kind_ok w) col = true -> keeps_type col = true.
Proof.
  intros H. unfold keeps_type. destruct w.
  - change (forallb word_cell col = true) in H.
    apply orb_true_iff. right. apply andb_true_iff. split.
    + rewrite forallb_forall in *. intros c Hc. specialize (H c Hc).
      destruct c; try done. simpl in *.
      rewrite !andb_true_iff in H. tauto.
    + destruct col as [|c col]; [done|].
      simpl in *. apply andb_true_iff in H as [-> _]. done.
  - change (forallb int_cell col = true) in H. rewrite H. done.
Qed.

Lemma logged_rows_snoc (fs : list Form) (f : Form) :
  logged_rows (fs ++ [f]) =
  logged_rows fs ++ [entry_row (1 + Z.of_nat (length fs)) f].
Proof.
  unfold logged_rows. rewrite imap_app. simpl.
  rewrite Nat.add_0_r. done.
Qed.

Lemma next_number_of_log (df : DataFrame) (k : nat) :
  schema_frame df ->
  column_cells (rows df) 0 = map CInt (seqZ 1 (Z.of_nat k)) ->
  new_case_number df = Some (1 + Z.of_nat k).
Proof.
  intros [Hc Hr] Hcol.
  assert (Hs : series df (txt "Number") = Some (map CInt (seqZ 1 (Z.of_nat k)))).
  { apply series_column_cells. exists 0%nat. rewrite Hc. done. }
  destruct (next_number_spec df _ Hs) as (n & Hn & Hlt & Hnil & Hcons).
  rewrite Hn. f_equal.
  destruct k as [|k].
  - rewrite Hnil; done.
  - assert (Hin : n - 1 ∈ seqZ 1 (Z.of_nat (S k))).
    { apply Hcons. rewrite seqZ_S. destruct (seqZ 1 (Z.of_nat k)); done. }
    apply elem_of_seqZ in Hin.
    assert (Z.of_nat (S k) < n) by (apply Hlt, elem_of_seqZ; lia).
    lia.
Qed.

Lemma series_of_schema_column (df : DataFrame) (name : text) (j : nat) :
  schema_frame df -> col_index name SCHEMA = Some j ->
  series df name = Some (column_cells (rows df) j).
Proof.
  intros [Hc _] Hj. apply series_column_cells. exists j. rewrite Hc. done.
Qed.

Lemma dashboard_schema (df : DataFrame) :
  schema_frame df -> is_Some (dashboard df).
Proof.
  intros Hsf. unfold dashboard, count_where, group_counts.
  destruct (empty df); [eauto|].
  rewrite (series_of_schema_column df (txt "Outcome") 9%nat Hsf eq_refl).
  rewrite (series_of_schema_column df (txt "My_Role") 11%nat Hsf eq_refl).
  rewrite (series_of_schema_column df (txt "Procedure") 7%nat Hsf eq_refl).
  rewrite (series_of_schema_column df (txt "Hospital") 4%nat Hsf eq_refl).
  cbn. eauto.
Qed.

Section Tracked.
Variable P : Form -> Prop.
Variable J : list (nat * bool).
Hypothesis tracked :
  forall n f, 1 <= n <= INT64_MAX -> P f ->
    Forall (fun jw : nat * bool =>
              kind_ok jw.2 (default CNaN (entry_row n f !! jw.1)) = true /\
              (jw.1 < 14)%nat) J.

Lemma logged_column_kind (fs : list Form) (jw : nat * bool) :
  Forall P fs -> Z.of_nat (length fs) <= INT64_MAX -> jw ∈ J ->
  forallb (kind_ok jw.2) (column_cells (logged_rows fs) jw.1) = true.
Proof.
  induction fs as [|f fs IH] using rev_ind; intros HP Hlen Hjw; [done|].
  apply Forall_app in HP as [HP Hf]. inversion Hf as [|? ? Hpf _]; subst.
  rewrite length_app in Hlen. simpl in Hlen.
  rewrite logged_rows_snoc, column_cells_snoc, forallb_app.
  rewrite IH by (try done; lia). simpl. rewrite andb_true_r.
  specialize (tracked (1 + Z.of_nat (length fs)) f ltac:(lia) Hpf).
  rewrite Forall_forall in tracked. apply tracked; done.
Qed.

Lemma number_column_kind (k : nat) :
  Z.of_nat k <= INT64_MAX ->
  forallb int_cell (map CInt (seqZ 1 (Z.of_nat k))) = true.
Proof.
  intros Hk. apply forallb_forall. intros c Hc. apply in_map_iff in Hc as (z & <- & Hz).
  apply list_elem_of_In, elem_of_seqZ in Hz. simpl.
  apply andb_true_iff. split; apply Z.leb_le; unfold INT64_MIN in *; lia.
Qed.

(** One submission keeps the log. *)
Lemma submit_holds_log (d : disk) (fs : list Form) (f : Form) :
  holds_log J d fs -> Forall P (fs ++ [f]) ->
  Z.of_nat (length (fs ++ [f])) <= INT64_MAX ->
  exists d', submit d f = Some d' /\ holds_log J d' (fs ++ [f]).
Proof.
  intros (df & Hload & Hsf & Hrows & Hnum & Hcols) HP Hlen.
  rewrite length_app in Hlen. simpl in Hlen.
  pose proof (next_number_of_log df (length fs) Hsf Hnum) as Hn.
  set (n := 1 + Z.of_nat (length fs)) in *.
  set (df1 := mkFrame SCHEMA (rows df ++ [entry_row n f])).
  assert (Hsf1 : schema_frame df1).
  { split; [done|]. cbn [rows df1]. apply Forall_app. split; [apply Hsf|].
    repeat constructor. }
  assert (Hsub : submit d f = Some (Some (to_csv df1))).
  { unfold submit. rewrite Hload, (log_case_schema df f d n Hsf Hn).
    destruct (dashboard_schema df Hsf) as [v ->]. done. }
  destruct (reload_frame_cells df1 d (schema_frame_wf df1 Hsf1)) as
    (df2 & Hload2 & Hc2 & Hrows2 & Hwf2 & Hkeep);
    [cbn; lia | apply schema_labels |].
  rewrite save_data_overwrites in Hload2.
  exists (Some (to_csv df1)). split; [done|].
  exists df2. split; [done|].
  assert (Hnum1 : column_cells (rows df1) 0 =
                  map CInt (seqZ 1 (Z.of_nat (length (fs ++ [f]))))).
  { cbn [rows df1]. rewrite column_cells_snoc, Hnum, length_app. simpl.
    rewrite Nat.add_1_r, seqZ_S, map_app. done. }
  split; [|split; [|split]].
  - split; [done|]. destruct Hwf2 as [_ H]. rewrite Hc2 in H. exact H.
  - rewrite Hrows2. cbn [rows df1]. rewrite !length_app, Hrows. done.
  - rewrite Hkeep; [done | cbn; lia |].
    rewrite Hnum1. apply (kind_column_keeps false), number_column_kind.
    rewrite length_app; simpl; lia.
  - apply Forall_forall. intros jw Hjw.
    assert (Hcol1 : column_cells (rows df1) jw.1 =
                    column_cells (logged_rows (fs ++ [f])) jw.1).
    { cbn [rows df1]. rewrite logged_rows_snoc, !column_cells_snoc.
      rewrite Forall_forall in Hcols. rewrite (Hcols jw Hjw). done. }
    assert (Hlt : (jw.1 < 14)%nat).
    { apply Forall_app in HP as [_ Hf]. inversion Hf as [|? ? Hpf _]; subst.
      specialize (tracked n f ltac:(unfold n; lia) Hpf).
      rewrite Forall_forall in tracked. apply tracked; done. }
    rewrite Hkeep; [done | exact Hlt |].
    rewrite Hcol1. apply (kind_column_keeps jw.2), logged_column_kind;
      [done | rewrite length_app; simpl; lia | done].
Qed.

(** Any number of submissions keep the log. *)
Lemma submit_all_holds_log (fs done : list Form) (d : disk) :
  holds_log J d done -> Forall P (done ++ fs) ->
  Z.of_nat (length (done ++ fs)) <= INT64_MAX ->
  exists d', submit_all d fs = Some d' /\ holds_log J d' (done ++ fs).
Proof.
  revert done d; induction fs as [|f fs IH]; intros done d Hlog HP Hlen.
  - rewrite app_nil_r. exists d. done.
  - replace (done ++ f :: fs) with ((done ++ [f]) ++ fs) in *
      by (rewrite <- app_assoc; done).
    destruct (submit_holds_log d done f Hlog) as (d1 & Hsub & Hlog1).
    + apply Forall_app in HP as [? _]. done.
    + rewrite length_app in Hlen. lia.
    + destruct (IH (done ++ [f]) d1 Hlog1 HP Hlen) as (d' & Hall & Hlog').
      exists d'. split; [|done]. cbn [submit_all]. rewrite Hsub. done.
Qed.
End Tracked.

Lemma no_file_holds_log (J : list (nat * bool)) : holds_log J None [].
Proof.
  exists (mkFrame SCHEMA []). split; [done|]. split; [split; [done | constructor]|].
  split; [done|]. split; [done|]. apply Forall_forall. done.
Qed.

Lemma column_of_logged_rows (j : nat) (g : Form -> cell) (fs : list Form) :
  (forall n f, default CNaN (entry_row n f !! j) = g f) ->
  column_cells (logged_rows fs) j = map g fs.
Proof.
  intros Hg. unfold column_cells, logged_rows.
  induction fs as [|f fs IH] using rev_ind; [done|].
  rewrite imap_app, !map_app, IH. simpl. rewrite Hg. done.
Qed.


Lemma option_word (opts : list text) (s : text) :
  forallb (fun o => word_cell (CStr o)) opts = true -> s ∈ opts ->
  word_cell (CStr s) = true.
Proof.
  intros Hall Hs. rewrite forallb_forall in Hall.
  apply Hall, list_elem_of_In, Hs.
Qed.

Lemma widget_columns_tracked (n : Z) (f : Form) :
  1 <= n <= INT64_MAX -> widget_form f = true ->
  Forall (fun jw : nat * bool =>
            kind_ok jw.2 (default CNaN (entry_row n f !! jw.1)) = true /\
            (jw.1 < 14)%nat) WIDGET_COLUMNS.
Proof.
  intros _. unfold widget_form, valid_date.
  rewrite !andb_true_iff, !Z.leb_le, !bool_decide_eq_true.
  intros (((((Ha1 & Ha2) & Han) & Hout) & Hrole) & Hdate).
  repeat constructor; simpl; try lia.
  - apply andb_true_iff. unfold INT64_MIN, INT64_MAX. split; apply Z.leb_le; lia.
  - apply strftime_ymd_word. lia.
  - apply (option_word ANAESTHESIA_OPTIONS); [reflexivity | done].
  - apply (option_word OUTCOME_OPTIONS); [reflexivity | done].
  - apply (option_word MY_ROLE_OPTIONS); [reflexivity | done].
Qed.


(** ** The dashboard *)

Lemma count_text_column (g : Form -> text) (v : text) (fs : list Form) :
  length (filter (fun c => c = CStr v) (map (fun f => CStr (g f)) fs)) =
  length (filter (fun f => g f = v) fs).
Proof.
  induction fs as [|f fs IH]; [done|]. cbn [map].
  rewrite !filter_cons. destruct (decide (g f = v)) as [->|Hne].
  - rewrite decide_True by done. simpl. rewrite IH. done.
  - rewrite decide_False by congruence. exact IH.
Qed.


(** X8: each metric of the dashboard is the count that [value_counts]
    lists for its value: a value occurs in the counts of a column exactly
    when the metric for it is positive, with the metric as its count. *)
Theorem count_where_is_group_count
    (df : DataFrame) (name : text) (v : cell) (res : list (cell * nat)) (n : nat) :
  group_counts df name = Some res -> v <> CNaN ->
  ((v, n) ∈ res <-> count_where df name v = Some n /\ (0 < n)%nat).
Proof.
  unfold group_counts, count_where.
  destruct (series df name) as [col|]; simpl; [|done].
  intros [= <-] Hv. unfold value_counts.
  destruct (sort_values_spec (count_table (filter (fun c => notna c = true) col)))
    as (Hp & _ & _).
  rewrite Hp, value_counts_table.
  rewrite list_elem_of_fmap. fold (occurrences v col). split.
  - intros (k & [= -> ->] & Hk). split; [done|].
    apply first_seen_elem, list_elem_of_filter in Hk as [_ Hk].
    apply occurrences_pos; done.
  - intros [[= <-] Hpos]. exists v. split; [done|].
    apply first_seen_elem, list_elem_of_filter. split; [destruct v; done|].
    destruct (decide (v ∈ col)) as [|Hnin]; [done|].
    rewrite occurrences_zero in Hpos by done. lia.
Qed.

Lemma sum_counts_first_seen (l : list cell) :
  sum_list (map (fun k => occurrences k l) (first_seen l)) = length l.
Proof.
  induction l as [|x l IH] using rev_ind; [done|].
  rewrite first_seen_snoc, length_app. simpl.
  destruct (decide (x ∈ l)) as [Hin|Hnin].
  - apply first_seen_elem, list_elem_of_split in Hin as (l1 & l2 & Hsplit).
    pose proof (first_seen_NoDup l) as Hnd. rewrite Hsplit in IH, Hnd |- *.
    apply NoDup_app in Hnd as (_ & Hdis & Hnd2).
    apply NoDup_cons in Hnd2 as [Hx2 _].
    rewrite !map_app, !sum_list_with_app in *. cbn [map sum_list_with id] in *.
    rewrite occurrences_snoc, decide_True by done.
    assert (H1 : map (fun k => occurrences k (l ++ [x])) l1 =
                 map (fun k => occurrences k l) l1).
    { apply map_ext_in. intros k Hk. rewrite occurrences_snoc, decide_False; [done|].
      intros ->. apply (Hdis k); [apply list_elem_of_In, Hk | left]. }
    assert (H2 : map (fun k => occurrences k (l ++ [x])) l2 =
                 map (fun k => occurrences k l) l2).
    { apply map_ext_in. intros k Hk. rewrite occurrences_snoc, decide_False; [done|].
      intros ->. apply Hx2, list_elem_of_In, Hk. }
    rewrite H1, H2. lia.
  - rewrite map_app, sum_list_with_app. cbn [map sum_list_with id].
    rewrite occurrences_snoc, decide_True, occurrences_zero by done.
    assert (H1 : map (fun k => occurrences k (l ++ [x])) (first_seen l) =
                 map (fun k => occurrences k l) (first_seen l)).
    { apply map_ext_in. intros k Hk. rewrite occurrences_snoc, decide_False; [done|].
      intros ->. apply Hnin, first_seen_elem, list_elem_of_In, Hk. }
    rewrite H1, IH. lia.
Qed.

(** X9: the counts of a column add up to the number of its cells that are
    not missing, so to no more than the total of the cases. *)
Theorem group_counts_total
    (df : DataFrame) (name : text) (col : list cell) (res : list (cell * nat)) :
  series df name = Some col -> group_counts df name = Some res ->
  sum_list (map snd res) = length (filter (fun c => notna c = true) col) /\
  (sum_list (map snd res) <= length (rows df))%nat.
Proof.
  intros Hs. unfold group_counts. rewrite Hs. intros [= <-].
  assert (Hsum : sum_list (map snd (value_counts col)) =
                 length (filter (fun c => notna c = true) col)).
  { unfold value_counts.
    destruct (sort_values_spec (count_table (filter (fun c => notna c = true) col)))
      as (Hp & _ & _).
    rewrite Hp, count_table_first_seen, map_map. cbn [snd].
    apply sum_counts_first_seen. }
  split; [done|]. rewrite Hsum, <- (series_length _ _ _ Hs).
  apply length_filter.
Qed.

(** X10: logging a case raises the total by one, raises by one the count of
    the cases with its outcome and with its role, and leaves the count for
    every other outcome and role as it was. *)
Theorem log_case_updates_metrics
    (df df' : DataFrame) (f : Form) (d d' : disk) (zs : list Z) (s : text) :
  schema_frame df ->
  series df (txt "Number") = Some (map CInt zs) ->
  log_case df f d = Some (df', d') ->
  length (rows df') = S (length (rows df)) /\
  count_where df' (txt "Outcome") (CStr s) =
    (fun n => if decide (outcome f = s) then S n else n) <$>
    count_where df (txt "Outcome") (CStr s) /\
  count_where df' (txt "My_Role") (CStr s) =
    (fun n => if decide (my_role f = s) then S n else n) <$>
    count_where df (txt "My_Role") (CStr s).
Proof.
  intros Hsf Hs Hlog.
  destruct (next_number_spec df zs Hs) as (n & Hn & _).
  rewrite (log_case_schema df f d n Hsf Hn) in Hlog. injection Hlog as <- <-.
  set (df1 := mkFrame SCHEMA (rows df ++ [entry_row n f])).
  assert (Hsf1 : schema_frame df1).
  { split; [done|]. cbn [rows df1]. apply Forall_app. split; [apply Hsf|].
    repeat constructor. }
  split; [cbn [rows df1]; rewrite length_app; simpl; lia|].
  unfold count_where.
  rewrite (series_of_schema_column df (txt "Outcome") 9%nat Hsf eq_refl).
  rewrite (series_of_schema_column df1 (txt "Outcome") 9%nat Hsf1 eq_refl).
  rewrite (series_of_schema_column df (txt "My_Role") 11%nat Hsf eq_refl).
  rewrite (series_of_schema_column df1 (txt "My_Role") 11%nat Hsf1 eq_refl).
  cbn [rows df1 mbind option_bind fmap option_fmap option_map].
  rewrite !column_cells_snoc, !filter_app, !length_app.
  change (default CNaN (entry_row n f !! 9%nat)) with (CStr (outcome f)).
  change (default CNaN (entry_row n f !! 11%nat)) with (CStr (my_role f)).
  split; f_equal.
  - destruct (decide (outcome f = s)) as [->|Hne].
    + rewrite filter_cons_True by done. simpl. lia.
    + rewrite filter_cons_False by congruence. simpl. lia.
  - destruct (decide (my_role f = s)) as [->|Hne].
    + rewrite filter_cons_True by done. simpl. lia.
    + rewrite filter_cons_False by congruence. simpl. lia.
Qed.

(** ** The filters *)


Lemma lower_or_plain (c : ascii) :
  lower c = c \/ ((lower c ∉ METACHARS) /\ (c ∉ METACHARS)).
Proof.
  destruct c as [[] [] [] [] [] [] [] []];
    first [ left; reflexivity
          | right; split; apply (bool_decide_unpack _); vm_compute; exact I ].
Qed.

Lemma same_case_meta (c c' : ascii) :
  lower c = lower c' -> c ∈ METACHARS -> c' = c.
Proof.
  intros Hl Hc.
  destruct (lower_or_plain c) as [Hc1|[_ ?]]; [|done].
  destruct (lower_or_plain c') as [Hc2|[Hn _]]; [congruence|].
  rewrite <- Hl, Hc1 in Hn. done.
Qed.

Lemma dot_is_meta : In "."%char METACHARS.
Proof. vm_compute. tauto. Qed.

Lemma compile_cons (c : ascii) (p : text) :
  compile (c :: p) =
  match (if decide (c = "."%char) then Some AnyChar
         else if bool_decide (c ∈ METACHARS) then None else Some (Lit c)),
        compile p with
  | Some a, Some k => Some (a :: k)
  | _, _ => None
  end.
Proof.
  unfold compile. cbn [mapM].
  destruct (decide (c = "."%char)); [|destruct (bool_decide (c ∈ METACHARS))];
    cbn; try done; destruct (mapM _ p); done.
Qed.

(** Patterns that differ in the case of their letters compile alike. *)
Lemma compile_same_case (p p' : text) (re : list atom) :
  map lower p = map lower p' -> compile p = Some re ->
  exists re', compile p' = Some re' /\
              forall s, match_here re' s = match_here re s.
Proof.
  revert p' re; induction p as [|c p IH]; intros [|c' p'] re Hl; try done.
  - intros [= <-]. exists []. done.
  - cbn [map] in Hl. injection Hl as Hc Hl.
    rewrite !compile_cons.
    destruct (decide (c = "."%char)) as [->|Hdot].
    + rewrite (same_case_meta "." c' Hc (proj2 (list_elem_of_In _ _) dot_is_meta)), decide_True by done.
      destruct (compile p) as [re0|] eqn:E; [|done]. intros [= <-].
      destruct (IH p' re0 Hl eq_refl) as (re' & -> & Hre').
      exists (AnyChar :: re'). split; [done|].
      intros [|x s]; [done|]. simpl. rewrite Hre'. done.
    + destruct (bool_decide (c ∈ METACHARS)) eqn:Hm; [done|].
      apply bool_decide_eq_false in Hm.
      assert (Hdot' : c' <> "."%char).
      { intros ->. apply Hdot.
        apply (same_case_meta "." c); [done | apply list_elem_of_In, dot_is_meta]. }
      assert (Hm' : c' ∉ METACHARS).
      { intros Hin. apply Hm.
        assert (c = c') as -> by (apply (same_case_meta c' c); done). done. }
      rewrite decide_False by done. rewrite bool_decide_false by done.
      destruct (compile p) as [re0|] eqn:E; [|done]. intros [= <-].
      destruct (IH p' re0 Hl eq_refl) as (re' & -> & Hre').
      exists (Lit c' :: re'). split; [done|].
      intros [|x s]; [done|]. simpl. rewrite Hre', Hc. done.
Qed.

Lemma search_ext (re re' : list atom) :
  (forall s, match_here re' s = match_here re s) ->
  forall s, search re' s = search re s.
Proof.
  intros H s. induction s as [|x s IH]; simpl; rewrite H; [done|].
  rewrite IH. done.
Qed.

Lemma select_contains_same_case (df cur : DataFrame) (name p p' : text) :
  map lower p = map lower p' -> is_Some (compile p) ->
  select_contains df name p' cur = select_contains df name p cur.
Proof.
  intros Hl [re Hre].
  destruct (compile_same_case p p' re Hl Hre) as (re' & Hre' & Hm).
  unfold select_contains.
  destruct (series df name) as [col|]; [|done].
  destruct (series cur name) as [cur_col|]; [|done].
  destruct (object_dtype col); [|done].
  rewrite Hre, Hre'. do 3 f_equal.
  apply list_filter_iff. intros [r c]. simpl.
  destruct c; try done. simpl. rewrite (search_ext re re' Hm). done.
Qed.

(** X12: the filters ignore the case of the letters of a pattern: two
    pairs of patterns of the modelled fragment that differ in case only
    give the same view. *)
Theorem filtered_df_ignores_pattern_case (df : DataFrame) (p p' q q' : text) :
  is_Some (compile p) -> is_Some (compile q) ->
  map lower p = map lower p' -> map lower q = map lower q' ->
  filtered_df df p' q' = filtered_df df p q.
Proof.
  intros Hp Hq Hlp Hlq. unfold filtered_df, filter_by.
  assert (H1 : match p' with
               | [] => Shown df
               | _ :: _ => select_contains df (txt "Procedure") p' df
               end =
               match p with
               | [] => Shown df
               | _ :: _ => select_contains df (txt "Procedure") p df
               end).
  { destruct p, p'; try done. apply select_contains_same_case; done. }
  rewrite H1.
  destruct (match p with
            | [] => Shown df
            | _ :: _ => select_contains df (txt "Procedure") p df
            end) as [cur| | |]; destruct q, q'; try done.
  apply select_contains_same_case; done.
Qed.

(** ** The file *)


Lemma dedup_names_length (seen names : list text) :
  length (dedup_names seen names) = length names.
Proof.
  revert seen; induction names as [|n ns IH]; intros seen; [done|].
  cbn [dedup_names length]. rewrite IH. done.
Qed.

Lemma mangle_length (h : list text) : length (mangle h) = length h.
Proof. unfold mangle. rewrite dedup_names_length, length_imap. done. Qed.

(** X14: whatever the file holds, a frame that [load_data] returns is
    rectangular: every row has one cell per column. *)
Theorem load_data_rectangular (d : disk) (df : DataFrame) :
  load_data d = inr df ->
  Forall (fun r => length r = length (columns df)) (rows df).
Proof.
  destruct d as [s|]; simpl.
  - unfold read_csv. destruct (tokenize s) as [e|[|header data]]; try done.
    destruct (existsb _ data); [done|]. intros [= <-]. cbn [columns rows].
    rewrite mangle_length. apply infer_rows_shape.
  - intros [= <-]. constructor.
Qed.

Lemma blank_lines_run (s : text) (st : tstate) :
  Forall (fun c => c = LF \/ c = CR) s ->
  st = START_RECORD \/ st = EAT_CRNL_NOP ->
  exists st', (st' = START_RECORD \/ st' = EAT_CRNL_NOP) /\
              fold_left step s (mkTok st [] [] []) = mkTok st' [] [] [].
Proof.
  intros Hs; revert st; induction Hs as [|c s Hc _ IH]; intros st Hst.
  - exists st. done.
  - cbn [fold_left].
    assert (Hstep : exists st1, (st1 = START_RECORD \/ st1 = EAT_CRNL_NOP) /\
                      step (mkTok st [] [] []) c = mkTok st1 [] [] []).
    { destruct Hst as [-> | ->], Hc as [-> | ->]; eexists; split;
        try reflexivity; tauto. }
    destruct Hstep as (st1 & Hst1 & ->). apply IH. done.
Qed.

(** X15: a file that is there but holds nothing, or line breaks only, does
    not load: [load_data] raises the error of a file without columns. *)
Theorem load_data_blank_file (s : text) :
  Forall (fun c => c = LF \/ c = CR) s ->
  load_data (Some s) = inl EmptyDataError.
Proof.
  intros Hs. simpl. unfold read_csv, tokenize.
  destruct (blank_lines_run s START_RECORD Hs) as (st & [-> | ->] & ->); auto.
Qed.

(** X16: a file that ends inside a quoted field does not load: after any
    complete lines, an opening quote that is not closed raises the error of
    the tokenizer. *)
Theorem load_data_open_quote (grid : list (list text)) (f : text) :
  Forall (fun fs => (2 <= length fs)%nat) grid ->
  load_data (Some (csv_lines grid ++ QUOTE :: double_quotes f)) = inl ParserError.
Proof.
  intros Hg. simpl. unfold read_csv, tokenize.
  rewrite fold_left_app, run_csv_lines by done. cbn [fold_left app].
  change (step (mkTok START_RECORD [] [] grid) QUOTE)
    with (mkTok IN_QUOTED_FIELD [] [] grid).
  rewrite run_in_quoted. reflexivity.
Qed.

Lemma save_interrupted_S (df : DataFrame) (d : disk) (n : nat) :
  save_interrupted (S n) df d = Some (take n (to_csv df)).
Proof.
  unfold save_interrupted, save_ops; simpl.
  rewrite <- fmap_take. apply write_chars.
Qed.

Lemma csv_lines_app (g1 g2 : list (list text)) :
  csv_lines (g1 ++ g2) = csv_lines g1 ++ csv_lines g2.
Proof. unfold csv_lines. rewrite map_app, concat_app. done. Qed.

Lemma save_interrupted_at_row (df : DataFrame) (d : disk) (k : nat) :
  save_interrupted
    (S (length (to_csv (mkFrame (columns df) (take k (rows df)))))) df d =
  Some (to_csv (mkFrame (columns df) (take k (rows df)))).
Proof.
  rewrite save_interrupted_S. f_equal. unfold to_csv; cbn [columns rows].
  rewrite <- (take_drop k (rows df)) at 2.
  rewrite map_app, app_comm_cons, csv_lines_app, fmap_take.
  apply take_app_length.
Qed.




(** ** Instances *)




Lemma strftime_ymd_layout_witness :
  valid_date (mkDate 2025 1 10) = true /\
  strftime_ymd (mkDate 2025 1 10) = txt "2025-01-10" /\
  length (strftime_ymd (mkDate 2025 1 10)) = 10%nat.
Proof.
  split; [reflexivity|]. split; [reflexivity|].
  apply (strftime_ymd_layout (mkDate 2025 1 10)). reflexivity.
Defined.




Lemma count_where_is_group_count_witness :
  group_counts outcomes_frame (txt "Outcome") =
    Some [(CStr (txt "Uneventful"), 3%nat); (CStr (txt "Complicated"), 2%nat)] /\
  CStr (txt "Complicated") <> CNaN /\
  ((CStr (txt "Complicated"), 2%nat) ∈
     [(CStr (txt "Uneventful"), 3%nat); (CStr (txt "Complicated"), 2%nat)] <->
   count_where outcomes_frame (txt "Outcome") (CStr (txt "Complicated")) = Some 2%nat
   /\ (0 < 2)%nat).
Proof.
  split; [reflexivity|]. split; [discriminate|].
  apply (count_where_is_group_count outcomes_frame (txt "Outcome")
           (CStr (txt "Complicated"))); [reflexivity | discriminate].
Defined.

Lemma group_counts_total_witness :
  series procedures_frame (txt "Procedure") =
    Some [CStr (txt "Appendectomy"); CStr (txt "Cholecystectomy"); CNaN] /\
  group_counts procedures_frame (txt "Procedure") =
    Some [(CStr (txt "Appendectomy"), 1%nat); (CStr (txt "Cholecystectomy"), 1%nat)] /\
  sum_list (map snd [(CStr (txt "Appendectomy"), 1%nat);
                     (CStr (txt "Cholecystectomy"), 1%nat)]) =
    length (filter (fun c => notna c = true)
              [CStr (txt "Appendectomy"); CStr (txt "Cholecystectomy"); CNaN]) /\
  (sum_list (map snd [(CStr (txt "Appendectomy"), 1%nat);
                      (CStr (txt "Cholecystectomy"), 1%nat)])
   <= length (rows procedures_frame))%nat.
Proof.
  split; [reflexivity|]. split; [reflexivity|].
  apply (group_counts_total procedures_frame (txt "Procedure")); reflexivity.
Defined.

Lemma log_case_updates_metrics_witness :
  schema_frame gapped_log /\
  series gapped_log (txt "Number") = Some (map CInt [1; 3; 4]) /\
  log_case gapped_log form_appendix None =
    Some (gapped_log_1, Some (to_csv gapped_log_1)) /\
  length (rows gapped_log_1) = S (length (rows gapped_log)) /\
  count_where gapped_log_1 (txt "Outcome") (CStr (txt "Uneventful")) =
    (fun n => if decide (outcome form_appendix = txt "Uneventful") then S n else n) <$>
    count_where gapped_log (txt "Outcome") (CStr (txt "Uneventful")) /\
  count_where gapped_log_1 (txt "My_Role") (CStr (txt "Uneventful")) =
    (fun n => if decide (my_role form_appendix = txt "Uneventful") then S n else n) <$>
    count_where gapped_log (txt "My_Role") (CStr (txt "Uneventful")).
Proof.
  assert (gapped_log_schema : schema_frame gapped_log)
    by (split; [reflexivity | repeat constructor]).
  assert (Hlog : log_case gapped_log form_appendix None =
                 Some (gapped_log_1, Some (to_csv gapped_log_1))).
  { vm_compute. reflexivity. }
  split; [exact gapped_log_schema|]. split; [reflexivity|]. split; [exact Hlog|].
  apply (log_case_updates_metrics gapped_log gapped_log_1 form_appendix None
           (Some (to_csv gapped_log_1)) [1; 3; 4] (txt "Uneventful")
           gapped_log_schema); [reflexivity | exact Hlog].
Defined.


Lemma filtered_df_ignores_pattern_case_witness :
  is_Some (compile (txt "appen")) /\ is_Some (compile []) /\
  map lower (txt "appen") = map lower (txt "APPen") /\
  filtered_df procedures_frame (txt "APPen") [] =
  filtered_df procedures_frame (txt "appen") [].
Proof.
  assert (H1 : is_Some (compile (txt "appen"))) by (vm_compute; eauto).
  assert (H2 : is_Some (compile [])) by (vm_compute; eauto).
  split; [exact H1|]. split; [exact H2|]. split; [reflexivity|].
  apply (filtered_df_ignores_pattern_case procedures_frame
           (txt "appen") (txt "APPen") [] [] H1 H2); reflexivity.
Defined.


Lemma load_data_rectangular_witness :
  load_data (Some foreign_file) =
    inr (mkFrame [txt "A"; txt "B"] [[CStr (txt "x"); CStr (txt "y")]]) /\
  Forall (fun r => length r = 2%nat) [[CStr (txt "x"); CStr (txt "y")]].
Proof.
  split; [reflexivity|].
  apply (load_data_rectangular (Some foreign_file)
           (mkFrame [txt "A"; txt "B"] [[CStr (txt "x"); CStr (txt "y")]])).
  reflexivity.
Defined.

Lemma load_data_blank_file_witness :
  Forall (fun c => c = LF \/ c = CR) blank_file /\
  load_data (Some blank_file) = inl EmptyDataError /\
  load_data (Some []) = inl EmptyDataError.
Proof.
  assert (H : Forall (fun c => c = LF \/ c = CR) blank_file)
    by (repeat constructor; (left; reflexivity) || (right; reflexivity)).
  split; [exact H|]. split.
  - apply (load_data_blank_file blank_file H).
  - reflexivity.
Defined.

Lemma load_data_open_quote_witness :
  Forall (fun fs => (2 <= length fs)%nat) [[txt "A"; txt "B"]] /\
  load_data (Some (csv_lines [[txt "A"; txt "B"]] ++ QUOTE :: double_quotes (txt "x,y")))
    = inl ParserError.
Proof.
  assert (H : Forall (fun fs => (2 <= length fs)%nat) [[txt "A"; txt "B"]])
    by (repeat constructor).
  split; [exact H|].
  apply (load_data_open_quote [[txt "A"; txt "B"]] (txt "x,y") H).
Defined.



